(** * Order commit and inventory consistency of the point-of-sale application

    A shallow embedding of the cart handlers, of [handleCheckout] and of
    [fetchAnalytics] of [src/App.tsx], and of the SQLite routes of the
    earlier [server.ts], with the properties the specification states about
    them.

    Conventions of the embedding:
    - a JavaScript [number] that the program only uses as an integer (ids,
      prices, stocks, quantities, totals) is a [Z]; the amount typed into
      the payment field is an integer or [NaN];
    - a JavaScript string that the program only compares, joins and copies
      is a Rocq string; one that it trims is the list of its UTF-16 code
      units;
    - an array is a [list]; a React state variable is a field of [AppState],
      and [setX (prev => f prev)] is the function [f] on that field;
    - a table of the store is a [gmap] (products, keyed by [id]) or an
      append-only [list] of rows (transactions and their items);
    - a store call of the client returns [{ data, error }]; whether it fails
      is decided by the environment, here an oracle indexed by the number of
      the call. *)

From stdpp Require Import gmap strings list pretty sorting.
From Stdlib Require Import ZArith Lia Ascii.

Local Open Scope Z_scope.

(** ** Types of [App.tsx] *)

Record Product := {
  id : Z;
  name : string;
  category : string;
  price : Z;
  stock : Z;                      (* -1 means unlimited/service *)
  image_url : option string
}.

(** [interface CartItem extends Product { quantity: number }]: the object
    spread [{ ...product, quantity }] copies the product's fields as they
    are at that moment. *)
Record CartItem := {
  product :> Product;
  quantity : Z
}.

Definition with_quantity (item : CartItem) (q : Z) : CartItem :=
  {| product := product item; quantity := q |}.

Definition with_stock (p : Product) (s : Z) : Product :=
  {| id := id p; name := name p; category := category p; price := price p;
     stock := s; image_url := image_url p |}.

Inductive OrderType := DineIn | TakeAway.

#[global] Instance Product_eq_dec : EqDecision Product.
Proof. solve_decision. Defined.
#[global] Instance CartItem_eq_dec : EqDecision CartItem.
Proof. solve_decision. Defined.
#[global] Instance OrderType_eq_dec : EqDecision OrderType.
Proof. solve_decision. Defined.

(** ** The cart handlers *)

Module Cart.

(** [addToCart]: the guard reads the product handed in (the catalogue's
    current row); the updater then runs on the previous cart. *)
Definition addToCart (p : Product) (prev : list CartItem) : list CartItem :=
  if bool_decide (stock p ≠ -1) && bool_decide (stock p ≤ 0) then prev
  else
    match find (λ item : CartItem, bool_decide (id item = id p)) prev with
    | Some _ =>
        map (λ item : CartItem,
               if bool_decide (id item = id p)
               then with_quantity item (quantity item + 1)
               else item) prev
    | None => prev ++ [ {| product := p; quantity := 1 |} ]
    end.

Definition removeFromCart (productId : Z) (prev : list CartItem) : list CartItem :=
  List.filter (λ item : CartItem, bool_decide (id item ≠ productId)) prev.

Definition updateQuantity (productId delta : Z) (prev : list CartItem)
  : list CartItem :=
  map (λ item : CartItem,
         if bool_decide (id item = productId) then
           let newQty := Z.max 1 (quantity item + delta) in
           (* Check stock *)
           if bool_decide (delta > 0) && bool_decide (stock item ≠ -1)
              && bool_decide (newQty > stock item)
           then item
           else with_quantity item newQty
         else item) prev.

(** [cart.reduce((sum, item) => sum + item.price * item.quantity, 0)] *)
Definition cartTotal (cart : list CartItem) : Z :=
  fold_left (λ sum (item : CartItem), sum + price item * quantity item) cart 0.

(** The three handlers as one operation type, for sequences of them. *)
Inductive Op :=
| Add (p : Product)
| SetQuantity (productId delta : Z)
| Remove (productId : Z).

Definition apply (cart : list CartItem) (op : Op) : list CartItem :=
  match op with
  | Add p => addToCart p cart
  | SetQuantity productId delta => updateQuantity productId delta cart
  | Remove productId => removeFromCart productId cart
  end.

Definition run (ops : list Op) : list CartItem := fold_left apply ops [].

(** What the guard of [addToCart] lets through. *)
Definition available (p : Product) : Prop := stock p = -1 ∨ 0 < stock p.

(** The invariant the specification gives for a cart line. *)
Definition within_ceiling (item : CartItem) : Prop :=
  stock item ≠ -1 → quantity item ≤ stock item.

End Cart.

(** ** Strings: [trim] *)

(** A JavaScript string is a sequence of UTF-16 code units. [trim] takes
    off code units from U+0009 up to U+FEFF, so that a string the program
    trims (the customer name, the variables of the environment) is kept
    as the list of its code units. *)
Definition JsString := list N.

(** A string literal of ASCII characters, as its code units. *)
Definition lit (s : string) : JsString :=
  N_of_ascii <$> String.list_ascii_of_string s.

(** [WhiteSpace] and [LineTerminator] of ECMAScript, each of them one code
    unit: TAB, VT, FF, SP, NBSP, the other space separators of Unicode
    (category Zs: U+1680, U+2000 to U+200A, U+202F, U+205F, U+3000) and
    ZWNBSP (U+FEFF); LF, CR, LS (U+2028) and PS (U+2029). *)
Definition is_white_space (c : N) : bool :=
  bool_decide (c ∈ [0x9; 0xB; 0xC; 0x20; 0xA0; 0x1680; 0x202F; 0x205F; 0x3000;
                    0xFEFF; 0xA; 0xD; 0x2028; 0x2029]%N)
  || bool_decide (0x2000 ≤ c ≤ 0x200A)%N.

Fixpoint trimStart (s : JsString) : JsString :=
  match s with
  | [] => []
  | c :: s' => if is_white_space c then trimStart s' else s
  end.

Definition trimEnd (s : JsString) : JsString :=
  reverse (trimStart (reverse s)).

(** [String.prototype.trim] *)
Definition trim (s : JsString) : JsString := trimEnd (trimStart s).

(** [!customerName.trim()]: the empty string is the only falsy string. *)
Definition blank (s : JsString) : bool := bool_decide (trim s = []).

(** ** Numbers: the amount field *)

(** The amount field holds [parseInt] of what was typed: an integer, or
    [NaN] when the text does not begin with one (".5" in a number
    input). Subtraction and [Math.max] give [NaN] as soon as an operand is
    [NaN]; [<] is false then. *)
Module JsNumber.

Inductive t :=
| Int (n : Z)
| NaN.

(** [a - b] *)
Definition sub (a b : t) : t :=
  match a, b with
  | Int x, Int y => Int (x - y)
  | _, _ => NaN
  end.

(** [Math.max(a, b)] *)
Definition max (a b : t) : t :=
  match a, b with
  | Int x, Int y => Int (Z.max x y)
  | _, _ => NaN
  end.

(** [a < b] *)
Definition ltb (a b : t) : bool :=
  match a, b with
  | Int x, Int y => bool_decide (x < y)
  | _, _ => false
  end.

Definition lt (a b : t) : Prop := ltb a b = true.

End JsNumber.
Coercion JsNumber.Int : Z >-> JsNumber.t.

#[global] Instance JsNumber_eq_dec : EqDecision JsNumber.t.
Proof. solve_decision. Defined.

(** ** The store *)

(** A row of [transactions]: the store assigns [id] and [timestamp]; the
    other columns are the object the client inserts ([NaN] in it goes over
    the wire as [null]). *)
Module Transaction.
Record Values := {
  total_amount : Z;
  customer_name : JsString;
  order_type : OrderType;
  amount_paid : JsNumber.t;
  change_amount : JsNumber.t;
  payment_method : string
}.
Record t := {
  id : Z;
  values : Values;
  timestamp : Z                 (* an instant, in milliseconds *)
}.
End Transaction.
Coercion Transaction.values : Transaction.t >-> Transaction.Values.

(** A row of [transaction_items], with the columns the program writes and
    reads (the row's own serial id is read nowhere in the modelled code). *)
Module TransactionItem.
Record t := {
  transaction_id : Z;
  product_id : Z;
  product_name : string;
  quantity : Z;
  price : Z
}.
End TransactionItem.

Record Store := {
  products : gmap Z Product;
  transactions : list Transaction.t;
  transaction_items : list TransactionItem.t;
  next_id : Z;                    (* the id the next transaction row gets *)
  now : Z                         (* the instant the next row is stamped with *)
}.

(** The three calls [handleCheckout] issues through the Supabase client. *)
Inductive StoreCall :=
| InsertTransaction (v : Transaction.Values)
    (* from('transactions').insert(v).select().single() *)
| InsertTransactionItems (rows : list TransactionItem.t)
    (* from('transaction_items').insert(rows) *)
| UpdateStock (productId : Z) (value : Z).
    (* from('products').update({ stock: value }).eq('id', productId) *)

(** What a call that succeeds does to the store, and the row it returns.
    An update whose filter matches no row changes nothing. *)
Definition exec (c : StoreCall) (s : Store) : Store * option Transaction.t :=
  match c with
  | InsertTransaction v =>
      let row := {| Transaction.id := next_id s; Transaction.values := v;
                    Transaction.timestamp := now s |} in
      ({| products := products s;
          transactions := transactions s ++ [row];
          transaction_items := transaction_items s;
          next_id := next_id s + 1;
          now := now s |}, Some row)
  | InsertTransactionItems rows =>
      ({| products := products s;
          transactions := transactions s;
          transaction_items := transaction_items s ++ rows;
          next_id := next_id s;
          now := now s |}, None)
  | UpdateStock productId value =>
      ({| products := alter (λ p, with_stock p value) productId (products s);
          transactions := transactions s;
          transaction_items := transaction_items s;
          next_id := next_id s;
          now := now s |}, None)
  end.

(** ** The state of [App] and the effects of a handler *)

Record AppState := {
  cart : list CartItem;
  customerName : JsString;
  orderType : OrderType;
  amountPaid : option JsNumber.t; (* [number | '']: [None] is the blank field *)
  paymentMethod : string;
  isProcessing : bool;
  showSuccess : bool
}.

Inductive UiEvent :=
| Alert (msg : string)
| ConsoleError (msg : string) (err : string)
| FetchProducts
| FetchHistory.

(** [calls] lists the store calls issued so far, each with the error it
    came back with, if any. *)
Record World := {
  app : AppState;
  store : Store;
  calls : list (StoreCall * option string);
  ui : list UiEvent
}.

Inductive Result (A : Type) :=
| Ok (a : A)
| Throw (message : string).
Arguments Ok {A} a.
Arguments Throw {A} message.

(** A handler: a state transformer that returns or throws. *)
Definition M (A : Type) : Type := World → Result A * World.

#[global] Instance M_ret : MRet M := λ A a w, (Ok a, w).
#[global] Instance M_bind : MBind M := λ A B f m w,
  match m w with
  | (Ok a, w') => f a w'
  | (Throw e, w') => (Throw e, w')
  end.

Definition throw {A} (e : string) : M A := λ w, (Throw e, w).

(** [try { body } catch (err) { handler err } finally { final }] *)
Definition try_catch_finally {A} (body : M A) (handler : string → M A)
    (final : M unit) : M A := λ w,
  let '(r, w1) := body w in
  let '(r', w2) := match r with
                   | Ok a => (Ok a, w1)
                   | Throw e => handler e w1
                   end in
  (r', snd (final w2)).

(** [for (const x of xs) { body x }] *)
Fixpoint for_of {A} (xs : list A) (body : A → M unit) : M unit :=
  match xs with
  | [] => mret ()
  | x :: xs' => body x ;; for_of xs' body
  end.

Definition get_app : M AppState := λ w, (Ok (app w), w).

Definition set_app (f : AppState → AppState) : M unit := λ w,
  (Ok (), {| app := f (app w); store := store w; calls := calls w; ui := ui w |}).

Definition emit (e : UiEvent) : M unit := λ w,
  (Ok (), {| app := app w; store := store w; calls := calls w; ui := ui w ++ [e] |}).

(** The state setters of [useState], as functions on [AppState]. *)
Definition with_cart (v : list CartItem) (a : AppState) : AppState :=
  {| cart := v; customerName := customerName a;
    orderType := orderType a; amountPaid := amountPaid a;
    paymentMethod := paymentMethod a; isProcessing := isProcessing a;
    showSuccess := showSuccess a |}.
Definition with_customerName (v : JsString) (a : AppState) : AppState :=
  {| cart := cart a; customerName := v;
    orderType := orderType a; amountPaid := amountPaid a;
    paymentMethod := paymentMethod a; isProcessing := isProcessing a;
    showSuccess := showSuccess a |}.
Definition with_orderType (v : OrderType) (a : AppState) : AppState :=
  {| cart := cart a; customerName := customerName a;
    orderType := v; amountPaid := amountPaid a;
    paymentMethod := paymentMethod a; isProcessing := isProcessing a;
    showSuccess := showSuccess a |}.
Definition with_amountPaid (v : option JsNumber.t) (a : AppState) : AppState :=
  {| cart := cart a; customerName := customerName a;
    orderType := orderType a; amountPaid := v;
    paymentMethod := paymentMethod a; isProcessing := isProcessing a;
    showSuccess := showSuccess a |}.
Definition with_paymentMethod (v : string) (a : AppState) : AppState :=
  {| cart := cart a; customerName := customerName a;
    orderType := orderType a; amountPaid := amountPaid a;
    paymentMethod := v; isProcessing := isProcessing a;
    showSuccess := showSuccess a |}.
Definition with_isProcessing (v : bool) (a : AppState) : AppState :=
  {| cart := cart a; customerName := customerName a;
    orderType := orderType a; amountPaid := amountPaid a;
    paymentMethod := paymentMethod a; isProcessing := v;
    showSuccess := showSuccess a |}.
Definition with_showSuccess (v : bool) (a : AppState) : AppState :=
  {| cart := cart a; customerName := customerName a;
    orderType := orderType a; amountPaid := amountPaid a;
    paymentMethod := paymentMethod a; isProcessing := isProcessing a;
    showSuccess := v |}.

Definition setCart (v : list CartItem) : M unit := set_app (with_cart v).
Definition setCustomerName (v : JsString) : M unit := set_app (with_customerName v).
Definition setOrderType (v : OrderType) : M unit := set_app (with_orderType v).
Definition setAmountPaid (v : option JsNumber.t) : M unit :=
  set_app (with_amountPaid v).
Definition setPaymentMethod (v : string) : M unit := set_app (with_paymentMethod v).
Definition setIsProcessing (v : bool) : M unit := set_app (with_isProcessing v).
Definition setShowSuccess (v : bool) : M unit := set_app (with_showSuccess v).

(** The [onChange] of the payment method select: a method other than cash
    fills the amount field with the cart total of that moment. *)
Definition selectPaymentMethod (value : string) : M unit :=
  a ← get_app;
  setPaymentMethod value;;
  if bool_decide (value ≠ "Cash")
  then setAmountPaid (Some (JsNumber.Int (Cart.cartTotal (cart a))))
  else mret ().

(** How [handleCheckout] was left. The handler itself returns nothing; the
    tag names the [return] that ended it: the three early returns of lines
    560, 563 and 571, the [catch] block with the message of what was thrown,
    or the end of the [try] block. The timer that hides the success banner
    three seconds later is not part of the model. *)
Inductive Exit :=
| EmptyCart
| MissingCustomer
| InsufficientPayment
| CheckoutFailed (message : string)
| Completed (transaction_id : Z).

Section Client.

(** The environment: [faults n] is the error the [n]-th store call of the
    session comes back with, if it fails. A call that fails leaves the
    store as it was. The client is taken to be configured, so that
    [getSupabase()] itself does not throw. *)
Variable faults : nat → option string.

Record Response := {
  data : option Transaction.t;
  error : option string
}.

Definition request (c : StoreCall) : M Response := λ w,
  let err := faults (length (calls w)) in
  let '(s, d) := match err with
                 | None => exec c (store w)
                 | Some _ => (store w, None)
                 end in
  (Ok {| data := d; error := err |},
   {| app := app w; store := s; calls := calls w ++ [(c, err)]; ui := ui w |}).

(** Step 3 of [handleCheckout] for one cart line. *)
Definition update_stock_of (item : CartItem) : M unit :=
  if bool_decide (stock item ≠ -1) then
    r ← request (UpdateStock (id item) (stock item - quantity item));
    match error r with
    | Some sError =>
        emit (ConsoleError
                ("Failed to update stock for product " +:+ pretty (id item))
                sError)
    | None => mret ()
    end
  else mret ().

Definition handleCheckout : M Exit :=
  a ← get_app;
  let cart := cart a in
  if bool_decide (length cart = 0%nat) then mret EmptyCart
  else if blank (customerName a) then
    emit (Alert "Mohon isi nama pemesan!");; mret MissingCustomer
  else
    let total := Cart.cartTotal cart in
    let paid := match amountPaid a with
                | Some n => n
                | None => JsNumber.Int total
                end in
    if bool_decide (paymentMethod a = "Cash") && JsNumber.ltb paid total then
      emit (Alert "Jumlah bayar kurang!");; mret InsufficientPayment
    else
      setIsProcessing true;;
      try_catch_finally
        ((* 1. Create Transaction *)
         r ← request (InsertTransaction
                {| Transaction.total_amount := total;
                   Transaction.customer_name := customerName a;
                   Transaction.order_type := orderType a;
                   Transaction.amount_paid := paid;
                   Transaction.change_amount :=
                     JsNumber.max 0 (JsNumber.sub paid total);
                   Transaction.payment_method := paymentMethod a |});
         match error r, data r with
         | Some tError, _ => throw tError
         | None, None =>
           (* no row came back: reading [transaction.id] throws *)
           throw "Cannot read properties of null (reading 'id')"
         | None, Some transaction =>
           (* 2. Create Transaction Items *)
           let transactionItems :=
             map (λ item : CartItem,
                    {| TransactionItem.transaction_id := Transaction.id transaction;
                       TransactionItem.product_id := id item;
                       TransactionItem.product_name := name item;
                       TransactionItem.quantity := quantity item;
                       TransactionItem.price := price item |}) cart in
           r2 ← request (InsertTransactionItems transactionItems);
           match error r2 with
           | Some iError => throw iError
           | None =>
             (* 3. Update Stock *)
             for_of cart update_stock_of;;
             setCart [];;
             setCustomerName (lit "");;
             setOrderType DineIn;;
             setAmountPaid None;;
             setPaymentMethod "Cash";;
             setShowSuccess true;;
             emit FetchProducts;;
             emit FetchHistory;;
             mret (Completed (Transaction.id transaction))
           end
         end)
        (λ message,
           emit (ConsoleError "Checkout failed" message);;
           emit (Alert ("Checkout gagal: " +:+ message));;
           mret (CheckoutFailed message))
        (setIsProcessing false).

End Client.

(** The environment in which no call fails, and the one in which the
    [n]-th call alone fails, with [e]. *)
Definition no_faults : nat → option string := λ _, None.
Definition fail_at (n : nat) (e : string) : nat → option string :=
  λ k, if bool_decide (k = n) then Some e else None.

(** ** The SQLite routes of the earlier [server.ts] *)

Module Server.

(** [INSERT INTO transactions (...) VALUES (...)], with [lastInsertRowid]. *)
Definition insertTransaction (v : Transaction.Values) (db : Store) : Store * Z :=
  ({| products := products db;
      transactions := transactions db ++
        [ {| Transaction.id := next_id db; Transaction.values := v;
             Transaction.timestamp := now db |} ];
      transaction_items := transaction_items db;
      next_id := next_id db + 1;
      now := now db |}, next_id db).

(** [INSERT INTO transaction_items (...) VALUES (?, ?, ?, ?, ?)] *)
Definition insertItem (row : TransactionItem.t) (db : Store) : Store :=
  {| products := products db;
     transactions := transactions db;
     transaction_items := transaction_items db ++ [row];
     next_id := next_id db;
     now := now db |}.

(** [UPDATE products SET stock = stock - ? WHERE id = ? AND stock > -1] *)
Definition updateStock (quantity productId : Z) (db : Store) : Store :=
  {| products :=
       alter (λ p, if bool_decide (stock p > -1)
                   then with_stock p (stock p - quantity) else p)
             productId (products db);
     transactions := transactions db;
     transaction_items := transaction_items db;
     next_id := next_id db;
     now := now db |}.

(** The body of [POST /api/transactions]. *)
Record Body := {
  items : list CartItem;
  fields : Transaction.Values
}.

(** [db.transaction(() => { ... })] of the route, on its successful path. *)
Definition transaction (body : Body) (db : Store) : Store * Z :=
  let '(db1, transactionId) := insertTransaction (fields body) db in
  (fold_left
     (λ db (item : CartItem),
        updateStock (quantity item) (id item)
          (insertItem {| TransactionItem.transaction_id := transactionId;
                         TransactionItem.product_id := id item;
                         TransactionItem.product_name := name item;
                         TransactionItem.quantity := quantity item;
                         TransactionItem.price := price item |} db))
     (items body) db1,
   transactionId).

End Server.

(** ** JavaScript objects used as maps, and arrays *)

Module Js.

Section Object.
Context {K V : Type} `{EqDecision K}.

(** The own properties of an object, in the order they were created. *)
Fixpoint get (acc : list (K * V)) (k : K) : option V :=
  match acc with
  | [] => None
  | (k', v) :: acc' => if decide (k' = k) then Some v else get acc' k
  end.

(** Writing an own property: an existing property keeps its place. *)
Fixpoint set (acc : list (K * V)) (k : K) (v : V) : list (K * V) :=
  match acc with
  | [] => [(k, v)]
  | (k', v') :: acc' =>
      if decide (k' = k) then (k, v) :: acc' else (k', v') :: set acc' k v
  end.
End Object.

Section Sums.
Context {K : Type} `{EqDecision K}.

(** [acc[k] || 0] where [acc] has own properties only and they are
    numbers: [0 || 0] is [0] as well. *)
Definition get_or_0 (acc : list (K * Z)) (k : K) : Z := default 0 (get acc k).

(** [rows.reduce((acc, curr) => { acc[key] = (acc[key] || 0) + val;
    return acc }, {})] for keys that name no property of
    [Object.prototype], as the dates [YYYY-MM-DD] are: reading and writing
    [acc[key]] then concerns own properties only. This is also what
    [GROUP BY key] with [SUM(val)] gives, up to the order of the groups. *)
Definition group_sum {A} (key : A → K) (val : A → Z) (rows : list A)
  : list (K * Z) :=
  fold_left (λ acc curr, set acc (key curr) (get_or_0 acc (key curr) + val curr))
            rows [].
End Sums.

(** What [+] leaves in a property of an object made with [{}]: a number,
    or a string. The strings that arise begin with the text of what
    [Object.prototype] holds under a name: ["[object Object]"] under
    [__proto__], the source text of a built-in function under the other
    names, which differs between engines. [Str k tail] is the text for
    the name [k], followed by [tail]. *)
Inductive Value :=
| Num (n : Z)
| Str (inherited : string) (tail : string).

(** The names of the properties of [Object.prototype]. *)
Definition Object_prototype : list string :=
  ["constructor"; "__defineGetter__"; "__defineSetter__"; "hasOwnProperty";
   "__lookupGetter__"; "__lookupSetter__"; "isPrototypeOf";
   "propertyIsEnumerable"; "toString"; "valueOf"; "__proto__";
   "toLocaleString"].

(** [(acc[k] || 0) + v] for a number [v]: an own property is read first,
    then [Object.prototype]; a name in neither reads as [undefined].
    A non-zero number, a function, an object and the strings above are
    truthy. A number plus [v] is the sum; anything else is turned into its
    text, and the decimal digits of [v] are appended. *)
Definition plus (acc : list (string * Value)) (k : string) (v : Z) : Value :=
  match get acc k with
  | Some (Num n) => Num (n + v)
  | Some (Str i tail) => Str i (tail +:+ pretty v)
  | None =>
      if bool_decide (k ∈ Object_prototype) then Str k (pretty v) else Num v
  end.

(** [acc[k] = v] for a number or a string [v]. [__proto__] is an accessor
    of [Object.prototype], and its setter does nothing with a value that
    is no object; any other name becomes, or stays, an own property. *)
Definition assign (acc : list (string * Value)) (k : string) (v : Value)
  : list (string * Value) :=
  if bool_decide (k = "__proto__") then acc else set acc k v.

(** [rows.reduce((acc, curr) => { acc[key] = (acc[key] || 0) + val;
    return acc }, {})] for keys that may be any string. *)
Definition group_plus {A} (key : A → string) (val : A → Z) (rows : list A)
  : list (string * Value) :=
  fold_left (λ acc curr, assign acc (key curr) (plus acc (key curr) (val curr)))
            rows [].

(** [b - a] as the comparator of [sort] hands it on: a string of the kind
    above is no numeral, so that the difference is [NaN], which [sort]
    takes for [+0]. *)
Definition minus (b a : Value) : Z :=
  match b, a with
  | Num y, Num x => y - x
  | _, _ => 0
  end.

(** [Array.prototype.sort(cmp)]: the sort is stable, and for a comparator
    that is a total preorder the stable sorted array is unique, so that the
    algorithm does not show. Here: insertion from the right. *)
Section Sort.
Context {A : Type} (cmp : A → A → Z).

Fixpoint sort_insert (x : A) (l : list A) : list A :=
  match l with
  | [] => [x]
  | y :: l' => if bool_decide (cmp x y ≤ 0) then x :: l else y :: sort_insert x l'
  end.

Definition sort (l : list A) : list A := foldr sort_insert [] l.
End Sort.

(** [l.slice(-n)] *)
Definition slice_last {A} (n : nat) (l : list A) : list A :=
  drop (length l - n) l.

(** An array index: the canonical decimal string of an integer below
    [2^32 - 1]. Properties with such names come first when an object's
    properties are listed, in ascending numeric order. *)
Definition digit (c : ascii) : option N :=
  let n := N_of_ascii c in
  if bool_decide (48 ≤ n ≤ 57)%N then Some (n - 48)%N else None.

Fixpoint digits (s : string) (acc : N) : option N :=
  match s with
  | EmptyString => Some acc
  | String c s' =>
      match digit c with
      | Some d => digits s' (10 * acc + d)%N
      | None => None
      end
  end.

Definition array_index (s : string) : option N :=
  match s with
  | EmptyString => None
  | String c s' =>
      if bool_decide (c = "0"%char) && negb (bool_decide (s' = EmptyString))
      then None
      else match digits s 0%N with
           | Some n => if bool_decide (n < 4294967295)%N then Some n else None
           | None => None
           end
  end.

(** [Object.entries(obj)] for string keys. *)
Definition entries {V} (obj : list (string * V)) : list (string * V) :=
  sort (λ a b, Z.of_N (default 0%N (array_index a.1))
               - Z.of_N (default 0%N (array_index b.1)))
       (List.filter (λ e, bool_decide (is_Some (array_index e.1))) obj)
  ++ List.filter (λ e, negb (bool_decide (is_Some (array_index e.1)))) obj.

End Js.

(** ** [fetchAnalytics] *)

Module Analytics.

(** [new Date(timestamp).toISOString().split('T')[0]]: the UTC day of the
    instant. The day is kept as its number since the epoch, which orders
    the strings [YYYY-MM-DD] as [localeCompare] does; such a string is
    never an array index, so that the days an object is keyed with are
    listed in the order they were created. *)
Definition toISODate (timestamp : Z) : Z := timestamp `div` 86400000.

(** The two columns the series is made of. *)
Definition date (curr : Transaction.t) : Z :=
  toISODate (Transaction.timestamp curr).
Definition amount (curr : Transaction.t) : Z := Transaction.total_amount curr.

Definition salesData (sales : list Transaction.t) : list (Z * Z) :=
  (* Group by date *)
  let groupedSales := Js.group_sum date amount sales in
  Js.slice_last 30 (Js.sort (λ a b, a.1 - b.1) groupedSales).

(** With a string among the totals the comparator is not consistent, and
    ECMAScript leaves the order of the sorted array to the engine; the
    order here is then one of those it allows. *)
Definition topProducts (items : list TransactionItem.t)
  : list (string * Js.Value) :=
  let groupedProducts :=
    Js.group_plus TransactionItem.product_name TransactionItem.quantity items in
  take 10 (Js.sort (λ a b, Js.minus b.2 a.2) (Js.entries groupedProducts)).

(** [GET /api/analytics/sales] of the earlier server:
    [SELECT date(timestamp) as date, SUM(total_amount) as total
     FROM transactions GROUP BY date(timestamp) ORDER BY date ASC LIMIT 30] *)
Definition server_sales (db : Store) : list (Z * Z) :=
  take 30
    (Js.sort (λ a b, a.1 - b.1) (Js.group_sum date amount (transactions db))).


End Analytics.

(** ** Vocabulary of the statements *)

(** The store after the calls of a log, the failed ones left out. *)
Definition replay (log : list (StoreCall * option string)) (s : Store) : Store :=
  fold_left (λ s (entry : StoreCall * option string),
               match entry.2 with
               | None => (exec entry.1 s).1
               | Some _ => s
               end) log s.

(** The calls of step 3 for the lines of a cart, the first of them being
    call number [n] of the session. *)
Fixpoint stock_calls (faults : nat → option string) (n : nat)
    (lines : list CartItem) : list (StoreCall * option string) :=
  match lines with
  | [] => []
  | item :: rest =>
      if bool_decide (stock item ≠ -1)
      then (UpdateStock (id item) (stock item - quantity item), faults n)
             :: stock_calls faults (S n) rest
      else stock_calls faults n rest
  end.

(** The number of the call that carries the update of line [i], when the
    first call of step 3 is call number [n]. *)
Definition call_of_line (n : nat) (lines : list CartItem) (i : nat) : nat :=
  (n + length (filter (λ item : CartItem, stock item ≠ (-1)%Z) (take i lines)))%nat.

(** What the console shows for the failed stock updates of a log. *)
Definition warnings (log : list (StoreCall * option string)) : list UiEvent :=
  omap (λ entry : StoreCall * option string,
          match entry with
          | (UpdateStock productId _, Some sError) =>
              Some (ConsoleError
                      ("Failed to update stock for product " +:+ pretty productId)
                      sError)
          | _ => None
          end) log.

(** The amount recorded as paid, the row of step 1 and the rows of step 2. *)
Definition paid (a : AppState) : JsNumber.t :=
  match amountPaid a with
  | Some n => n
  | None => JsNumber.Int (Cart.cartTotal (cart a))
  end.

Definition transaction_values (a : AppState) : Transaction.Values :=
  {| Transaction.total_amount := Cart.cartTotal (cart a);
     Transaction.customer_name := customerName a;
     Transaction.order_type := orderType a;
     Transaction.amount_paid := paid a;
     Transaction.change_amount :=
       JsNumber.max 0 (JsNumber.sub (paid a) (Cart.cartTotal (cart a)));
     Transaction.payment_method := paymentMethod a |}.

Definition item_row (transactionId : Z) (item : CartItem) : TransactionItem.t :=
  {| TransactionItem.transaction_id := transactionId;
     TransactionItem.product_id := id item;
     TransactionItem.product_name := name item;
     TransactionItem.quantity := quantity item;
     TransactionItem.price := price item |}.

(** The three preconditions of [handleCheckout] hold. *)
Definition valid (a : AppState) : Prop :=
  cart a ≠ [] ∧ blank (customerName a) = false ∧
  ¬ (paymentMethod a = "Cash" ∧ JsNumber.lt (paid a) (Cart.cartTotal (cart a))).

(** The form after a checkout that went through. *)
Definition fresh_form : AppState :=
  {| cart := []; customerName := lit ""; orderType := DineIn; amountPaid := None;
     paymentMethod := "Cash"; isProcessing := false; showSuccess := true |}.

(** No item row refers to a transaction the store has yet to number. *)
Definition consistent (s : Store) : Prop :=
  Forall (λ row, TransactionItem.transaction_id row < next_id s)
         (transaction_items s).

(** A ranking all of whose totals are numbers. *)
Definition numeric (top : list (string * Z)) : list (string * Js.Value) :=
  (λ e, (e.1, Js.Num e.2)) <$> top.

(** The ranking over sums that are numbers: what [topProducts] comes to
    when no product name is a name of [Object.prototype]
    (lemma [topProducts_numeric]). *)
Definition ranking (items : list TransactionItem.t) : list (string * Z) :=
  take 10
    (Js.sort (λ a b, b.2 - a.2)
       (Js.entries
          (Js.group_sum TransactionItem.product_name TransactionItem.quantity
             items))).


(** The sum of [val] over the rows whose key is [k]. *)
Definition sum_where {A K} `{EqDecision K} (key : A → K) (val : A → Z)
    (k : K) (rows : list A) : Z :=
  foldr (λ r acc, (if decide (key r = k) then val r else 0) + acc) 0 rows.


(** ** Fixtures *)

Module Fixture.

Definition ceker : Product :=
  {| id := 3; name := "Ceker"; category := "Topping"; price := 2000;
     stock := 10; image_url := None |}.

Definition seblak : Product :=
  {| id := 1; name := "Seblak Original"; category := "Seblak"; price := 10000;
     stock := -1; image_url := None |}.

Definition esteh : Product :=
  {| id := 8; name := "Es Teh Manis"; category := "Minuman"; price := 5000;
     stock := -1; image_url := None |}.

Definition last_one : Product :=
  {| id := 6; name := "Dumpling Cheese"; category := "Topping"; price := 3000;
     stock := 1; image_url := None |}.

Definition shop : Store :=
  {| products := {[ 1 := seblak; 3 := ceker; 6 := last_one; 8 := esteh ]};
     transactions := []; transaction_items := [];
     next_id := 1; now := 1700000000000 |}.

Definition form (lines : list CartItem) (customer : string)
    (tendered : option Z) (method : string) : AppState :=
  {| cart := lines; customerName := lit customer; orderType := DineIn;
     amountPaid := JsNumber.Int <$> tendered; paymentMethod := method;
     isProcessing := false; showSuccess := false |}.

(** A terminal with its form filled in, in front of a store. *)
Definition session (a : AppState) (s : Store) : World :=
  {| app := a; store := s; calls := []; ui := [] |}.

Definition line (p : Product) (q : Z) : CartItem :=
  {| product := p; quantity := q |}.

Definition sold (transactionId : Z) (productName : string) (q : Z)
  : TransactionItem.t :=
  {| TransactionItem.transaction_id := transactionId;
     TransactionItem.product_id := 0;
     TransactionItem.product_name := productName;
     TransactionItem.quantity := q;
     TransactionItem.price := 1000 |}.

Definition sale (day amount : Z) : Transaction.t :=
  {| Transaction.id := day + 1;
     Transaction.values :=
       {| Transaction.total_amount := amount;
          Transaction.customer_name := lit "Budi";
          Transaction.order_type := TakeAway;
          Transaction.amount_paid := amount;
          Transaction.change_amount := 0;
          Transaction.payment_method := "QRIS" |};
     Transaction.timestamp := day * 86400000 + 3600000 |}.

End Fixture.

(** ** Further parts of [App.tsx] *)

(** A store whose tables agree: transaction ids are distinct and below the
    next one, and every item row names a transaction of the table. *)
Definition referential (s : Store) : Prop :=
  Forall (λ t, Transaction.id t < next_id s) (transactions s) ∧
  NoDup (Transaction.id <$> transactions s) ∧
  Forall (λ row, ∃ t, t ∈ transactions s ∧
                      Transaction.id t = TransactionItem.transaction_id row)
         (transaction_items s).

(** A product row with its stock blanked out: what is left is everything a
    stock update cannot touch. *)
Definition without_stock (p : Product) : Product := with_stock p 0.

(** The change shown beside the amount field:
    [Math.max(0, (typeof amountPaid === 'number' ? amountPaid : 0) - cartTotal)] *)
Definition shownChange (a : AppState) : JsNumber.t :=
  JsNumber.max 0
    (JsNumber.sub (match amountPaid a with Some n => n | None => JsNumber.Int 0 end)
                  (Cart.cartTotal (cart a))).

(** The quantity a request body asks of a product. *)
Definition asked (productId : Z) (items : list CartItem) : Z :=
  sum_where (λ item : CartItem, id item) quantity productId items.

Module Catalog.

(** [String.prototype.toLowerCase] on one-byte characters: the letters A
    to Z. *)
Definition lower (c : ascii) : ascii :=
  let n := nat_of_ascii c in
  if bool_decide (65 ≤ n ≤ 90)%nat then ascii_of_nat (n + 32) else c.

Fixpoint toLowerCase (s : string) : string :=
  match s with
  | EmptyString => EmptyString
  | String c s' => String (lower c) (toLowerCase s')
  end.

(** [s.startsWith(t)] *)
Fixpoint startsWith (s t : string) : bool :=
  match t, s with
  | EmptyString, _ => true
  | String _ _, EmptyString => false
  | String c t', String d s' => bool_decide (c = d) && startsWith s' t'
  end.

(** [s.includes(t)] *)
Fixpoint includes (s t : string) : bool :=
  startsWith s t ||
  match s with
  | EmptyString => false
  | String _ s' => includes s' t
  end.

(** [Array.from(new Set(xs))]: a set keeps its values in the order they
    were first added. *)
Definition from_set (xs : list string) : list string :=
  fold_left (λ seen x, if bool_decide (x ∈ seen) then seen else seen ++ [x])
            xs [].

(** [const categories = useMemo(() => ['All', ...cats], [products])] *)
Definition categories (products : list Product) : list string :=
  "All" :: from_set (map category products).

Definition filteredProducts (searchQuery selectedCategory : string)
    (products : list Product) : list Product :=
  List.filter
    (λ p, let matchesSearch :=
            includes (toLowerCase (name p)) (toLowerCase searchQuery) in
          let matchesCategory :=
            bool_decide (selectedCategory = "All")
            || bool_decide (category p = selectedCategory) in
          matchesSearch && matchesCategory)
    products.

(** The inventory tab: one group per category, [null] for a category
    without products. *)
Definition inventoryGroups (products : list Product)
  : list (option (string * list Product)) :=
  map (λ c, let categoryProducts :=
              List.filter (λ p, bool_decide (category p = c)) products in
            if bool_decide (length categoryProducts = 0%nat) then None
            else Some (c, categoryProducts))
      (List.filter (λ c, bool_decide (c ≠ "All")) (categories products)).

(** The cards of the analysis tab. *)

(** [salesData.find(s => s.date === today)?.total || 0] *)
Definition todaysTotal (today : Z) (salesData : list (Z * Z)) : Z :=
  match find (λ s : Z * Z, bool_decide (s.1 = today)) salesData with
  | Some s => s.2
  | None => 0
  end.

(** [topProducts[0]?.name || '-'] *)
Definition bestSeller {V} (topProducts : list (string * V)) : string :=
  match topProducts with
  | (n, _) :: _ => if bool_decide (n = "") then "-" else n
  | [] => "-"
  end.

End Catalog.

(** ** [getSupabase] *)

(** [String.prototype] on code units. *)
Module Text.

(** [toLowerCase] on the letters A to Z. The program lower-cases a string
    only to test whether it starts with "http", and H, T and P are the
    only characters whose lower case begins with h, t or p, so that the
    other letters do not matter to it. *)
Definition lower (c : N) : N :=
  if bool_decide (0x41 ≤ c ≤ 0x5A)%N then (c + 0x20)%N else c.

Definition toLowerCase (s : JsString) : JsString := lower <$> s.

(** [s.startsWith(t)] *)
Fixpoint startsWith (s t : JsString) : bool :=
  match t, s with
  | [], _ => true
  | _ :: _, [] => false
  | c :: t', d :: s' => bool_decide (c = d) && startsWith s' t'
  end.

(** [s.includes(t)] *)
Fixpoint includes (s t : JsString) : bool :=
  startsWith s t ||
  match s with
  | [] => false
  | _ :: s' => includes s' t
  end.

End Text.

Module Supabase.

(** [import.meta.env] *)
Record Env := {
  VITE_SUPABASE_URL : option JsString;
  VITE_SUPABASE_ANON_KEY : option JsString
}.

(** What a call ends with: the value returned, or the message of the
    error thrown. *)
Inductive Outcome (A : Type) :=
| Returns (a : A)
| Throws (message : JsString).
Arguments Returns {A} a.
Arguments Throws {A} message.

Definition missing : JsString :=
  lit "Supabase credentials missing. Please set VITE_SUPABASE_URL and VITE_SUPABASE_ANON_KEY in your environment variables.".

(** [!value] for [string | undefined] *)
Definition falsy (v : option JsString) : bool :=
  match v with
  | None => true
  | Some s => bool_decide (s = [])
  end.

Section Library.

(** [createClient] of [@supabase/supabase-js] and the [URL] constructor
    are not code of the program: [createClient url key] returns a client
    or throws, [new_URL s] is the message of the error [new URL(s)]
    throws, if it throws; either is whatever the library does. *)
Variable Client : Type.
Variable createClient : JsString → JsString → Outcome Client.
Variable new_URL : JsString → option JsString.

(** [src/lib/supabase.ts]. The module variable [supabaseClient] is the
    state; it is written only after [createClient] has returned. *)
Definition getSupabase (env : Env) (supabaseClient : option Client)
  : Outcome Client * option Client :=
  match supabaseClient with
  | Some client => (Returns client, supabaseClient)
  | None =>
      if falsy (VITE_SUPABASE_URL env) || falsy (VITE_SUPABASE_ANON_KEY env)
      then (Throws missing, None)
      else
        match createClient (default [] (VITE_SUPABASE_URL env))
                           (default [] (VITE_SUPABASE_ANON_KEY env)) with
        | Returns client => (Returns client, Some client)
        | Throws message => (Throws message, None)
        end
  end.

(** The variant that trims and checks the URL. *)
Definition getSupabase_checked (env : Env) (supabaseClient : option Client)
  : Outcome Client * option Client :=
  match supabaseClient with
  | Some client => (Returns client, supabaseClient)
  | None =>
      let supabaseUrl := trim (default [] (VITE_SUPABASE_URL env)) in
      let supabaseKey := trim (default [] (VITE_SUPABASE_ANON_KEY env)) in
      if bool_decide (supabaseUrl = []) || bool_decide (supabaseKey = [])
         || bool_decide (supabaseUrl = lit "undefined")
         || bool_decide (supabaseKey = lit "undefined")
         || bool_decide (supabaseUrl = lit "null")
         || bool_decide (supabaseKey = lit "null")
      then (Throws missing, None)
      else
        let thrown :=
          (* Basic validation to ensure it starts with http/https *)
          if negb (Text.startsWith (Text.toLowerCase supabaseUrl) (lit "http"))
          then
            let hint :=
              if Text.startsWith supabaseUrl (lit "eyJ")
              then lit " It looks like you might have pasted your API Key (Anon Key) into the VITE_SUPABASE_URL field by mistake."
              else [] in
            Some (lit "URL must start with http:// or https:// (Received: "
                  ++ [0x22%N] ++ supabaseUrl ++ [0x22%N] ++ lit ")." ++ hint)
          else new_URL supabaseUrl in
        match thrown with
        | Some detail =>
            (Throws (lit "Invalid VITE_SUPABASE_URL: "
                     ++ [0x22%N] ++ supabaseUrl ++ [0x22%N] ++ lit ". " ++ detail
                     ++ lit ". Please check your environment variables."), None)
        | None =>
            match createClient supabaseUrl supabaseKey with
            | Returns client => (Returns client, Some client)
            | Throws message => (Throws message, None)
            end
        end
  end.

(** Calls of [getSupabase] one after the other: the module variable is
    carried from call to call, the environment may differ at each. *)
Fixpoint calls (getSupabase : Env → option Client → Outcome Client * option Client)
    (envs : list Env) (supabaseClient : option Client) : list (Outcome Client) :=
  match envs with
  | [] => []
  | env :: envs' =>
      let '(result, supabaseClient') := getSupabase env supabaseClient in
      result :: calls getSupabase envs' supabaseClient'
  end.

End Library.
Arguments getSupabase {Client} createClient env supabaseClient.
Arguments getSupabase_checked {Client} createClient new_URL env supabaseClient.
Arguments calls {Client} getSupabase envs supabaseClient.

(** The state [fetchProducts] writes. *)
Record View := {
  products : list Product;
  configError : option JsString
}.

(** [fetchProducts], given what [getSupabase()] and then the query came
    back with ([data] may be [null]). The second component is what
    [console.error] is called with: the label and the message of the
    error. *)
Definition fetchProducts {Client} (client : Outcome Client)
    (response : Outcome (option (list Product))) (v : View)
  : View * list (string * JsString) :=
  let failed (msg : JsString) :=
    (if Text.includes msg (lit "Supabase credentials")
        || Text.includes msg (lit "VITE_SUPABASE_URL")
     then {| products := products v; configError := Some msg |}
     else v,
     [("Failed to fetch products", msg)]) in
  match client with
  | Throws msg => failed msg
  | Returns _ =>
      match response with
      | Throws msg => failed msg
      | Returns data =>
          ({| products := default [] data; configError := None |}, [])
      end
  end.

End Supabase.

(** * Properties *)

(** ** The cart *)

Section CartFacts.
Import Cart.

Lemma cartTotal_from (cart : list CartItem) (z : Z) :
  fold_left (λ sum (item : CartItem), sum + price item * quantity item) cart z
  = z + cartTotal cart.
Proof.
  unfold cartTotal. revert z.
  induction cart as [|item cart IH]; intros z; simpl; [lia|].
  rewrite IH, (IH (0 + _)). lia.
Qed.

Lemma cartTotal_cons (item : CartItem) (cart : list CartItem) :
  cartTotal (item :: cart) = price item * quantity item + cartTotal cart.
Proof. unfold cartTotal at 1. simpl. rewrite cartTotal_from. lia. Qed.

(** [addToCart] on a product that is out of stock leaves the cart alone. *)
Lemma addToCart_out_of_stock (p : Product) (prev : list CartItem) :
  stock p ≠ -1 → stock p ≤ 0 → addToCart p prev = prev.
Proof.
  intros Hlim Hzero. unfold addToCart.
  rewrite !bool_decide_eq_true_2 by done. done.
Qed.

Lemma addToCart_guard (p : Product) :
  available p →
  bool_decide (stock p ≠ -1) && bool_decide (stock p ≤ 0) = false.
Proof.
  intros [H|H]; apply andb_false_iff; [left|right];
    apply bool_decide_eq_false_2; lia.
Qed.

(** A product that is not in the cart gets a line of its own, at the end,
    with quantity 1 and the product as it was handed in. *)
Lemma addToCart_new (p : Product) (prev : list CartItem) :
  available p →
  Forall (λ item : CartItem, id item ≠ id p) prev →
  addToCart p prev = prev ++ [ {| product := p; quantity := 1 |} ].
Proof.
  intros Hav Hnew. unfold addToCart. rewrite addToCart_guard by done.
  destruct (find _ prev) as [item|] eqn:Hfind; [|done].
  apply find_some in Hfind as [Hin Hid].
  apply bool_decide_eq_true_1 in Hid.
  rewrite Forall_forall in Hnew. apply list_elem_of_In in Hin.
  by destruct (Hnew _ Hin).
Qed.

(** A product that is in the cart has the quantity of its line raised by
    one, whatever the ceiling; the line keeps the snapshot it was made
    with, and the other lines stay. *)
Lemma addToCart_existing (p : Product) (prev : list CartItem) :
  available p →
  Exists (λ item : CartItem, id item = id p) prev →
  length (addToCart p prev) = length prev ∧
  ∀ (i : nat) (item : CartItem), prev !! i = Some item →
    addToCart p prev !! i =
      Some (if decide (id item = id p)
            then {| product := product item; quantity := quantity item + 1 |}
            else item).
Proof.
  intros Hav Hex. unfold addToCart. rewrite addToCart_guard by done.
  destruct (find _ prev) as [found|] eqn:Hfind.
  - split; [by rewrite length_map|].
    intros i item Hi. rewrite list_lookup_fmap, Hi. simpl.
    case_bool_decide; case_decide; done.
  - apply Exists_exists in Hex as (item & Hin & Hid).
    apply list_elem_of_In in Hin.
    eapply find_none in Hfind; [|done].
    apply bool_decide_eq_false_1 in Hfind. done.
Qed.

End CartFacts.

Section QuantityFacts.
Import Cart.

(** C8. [updateQuantity productId delta] keeps every line in its place and
    changes nothing but quantities; a line of another product is left as
    it is; on a line of [productId] the quantity becomes
    [max 1 (quantity + delta)], unless [delta > 0], the line is stock
    limited and that value exceeds the stock snapshot, in which case the
    quantity stays. So a line that was at 1 or more stays at 1 or more, and
    a quantity that grew on a stock-limited line is within the ceiling. *)
Theorem updateQuantity_line (productId delta : Z) (prev : list CartItem)
    (i : nat) (item : CartItem) :
  prev !! i = Some item →
  length (updateQuantity productId delta prev) = length prev ∧
  ∃ item' : CartItem,
    updateQuantity productId delta prev !! i = Some item' ∧
    product item' = product item ∧
    (id item ≠ productId → item' = item) ∧
    (id item = productId →
       let newQty := Z.max 1 (quantity item + delta) in
       (delta > 0 ∧ stock item ≠ -1 ∧ newQty > stock item →
          quantity item' = quantity item) ∧
       (¬ (delta > 0 ∧ stock item ≠ -1 ∧ newQty > stock item) →
          quantity item' = newQty) ∧
       (1 ≤ quantity item → 1 ≤ quantity item') ∧
       (1 ≤ quantity item → stock item ≠ -1 →
          quantity item < quantity item' → quantity item' ≤ stock item)).
Proof.
  intros Hi. split; [apply length_map|].
  unfold updateQuantity. rewrite list_lookup_fmap, Hi. simpl.
  eexists; split; [done|].
  case_bool_decide as Hid.
  - destruct (bool_decide (delta > 0)) eqn:Hd;
      destruct (bool_decide (stock item ≠ -1)) eqn:Hs;
      destruct (bool_decide (Z.max 1 (quantity item + delta) > stock item)) eqn:Hq;
      simpl;
      try apply bool_decide_eq_true_1 in Hd;
      try apply bool_decide_eq_false_1 in Hd;
      try apply bool_decide_eq_true_1 in Hs;
      try apply bool_decide_eq_false_1 in Hs;
      try apply bool_decide_eq_true_1 in Hq;
      try apply bool_decide_eq_false_1 in Hq;
      (split; [done|]); (split; [done|]); intros _; simpl;
      repeat split; intros; try lia; try tauto.
  - split; [done|]. split; [done|]. done.
Qed.

Lemma updateQuantity_line_witness :
  ∃ item' : CartItem,
    updateQuantity 3 1 [Fixture.line Fixture.seblak 1; Fixture.line Fixture.ceker 10]
      !! 1%nat = Some item' ∧ quantity item' = 10.
Proof.
  destruct (updateQuantity_line 3 1
              [Fixture.line Fixture.seblak 1; Fixture.line Fixture.ceker 10]
              1 (Fixture.line Fixture.ceker 10) eq_refl)
    as (_ & item' & Hlook & _ & _ & Hsame).
  exists item'. split; [exact Hlook|].
  destruct (Hsame eq_refl) as (Hrej & _).
  apply Hrej. vm_compute. repeat split; congruence.
Defined.

(** [updateQuantity] keeps a line within its ceiling. *)
Lemma updateQuantity_within_ceiling (productId delta : Z) (prev : list CartItem) :
  Forall (λ item : CartItem, 1 ≤ quantity item ∧ within_ceiling item) prev →
  Forall (λ item : CartItem, 1 ≤ quantity item ∧ within_ceiling item)
         (updateQuantity productId delta prev).
Proof.
  intros Hall. unfold updateQuantity. apply Forall_fmap.
  eapply Forall_impl; [exact Hall|].
  intros item [Hq Hc]. unfold within_ceiling in *. simpl.
  repeat case_bool_decide; simpl;
    (split; [lia | intros Hs; try specialize (Hc Hs); lia]).
Qed.

Lemma removeFromCart_within_ceiling (productId : Z) (prev : list CartItem) :
  Forall (λ item : CartItem, 1 ≤ quantity item ∧ within_ceiling item) prev →
  Forall (λ item : CartItem, 1 ≤ quantity item ∧ within_ceiling item)
         (removeFromCart productId prev).
Proof.
  intros Hall. unfold removeFromCart.
  rewrite Forall_forall in *. intros item Hin.
  apply list_elem_of_In, filter_In in Hin as [Hin _].
  apply Hall. by apply list_elem_of_In.
Qed.

(** The first [addToCart] of a product makes a line within its ceiling. *)
Lemma addToCart_new_within_ceiling (p : Product) (prev : list CartItem) :
  Forall (λ item : CartItem, id item ≠ id p) prev →
  Forall (λ item : CartItem, 1 ≤ quantity item ∧ within_ceiling item) prev →
  Forall (λ item : CartItem, 1 ≤ quantity item ∧ within_ceiling item)
         (addToCart p prev).
Proof.
  intros Hnew Hall.
  destruct (decide (available p)) as [Hav|Hno].
  - rewrite addToCart_new by done. apply Forall_app. split; [done|].
    apply Forall_singleton. unfold within_ceiling. simpl.
    split; [lia|]. destruct Hav; lia.
  - rewrite addToCart_out_of_stock; [done| |]; unfold available in Hno; lia.
Qed.

(** Every step keeps the lines within their ceilings, but for the
    [addToCart] of a product that has a line already. *)
Lemma apply_within_ceiling (cart : list CartItem) (op : Op) :
  match op with
  | Add p => Forall (λ item : CartItem, id item ≠ id p) cart
  | _ => True
  end →
  Forall (λ item : CartItem, 1 ≤ quantity item ∧ within_ceiling item) cart →
  Forall (λ item : CartItem, 1 ≤ quantity item ∧ within_ceiling item)
         (apply cart op).
Proof.
  destruct op as [p|productId delta|productId]; simpl; intros Hop Hall.
  - by apply addToCart_new_within_ceiling.
  - by apply updateQuantity_within_ceiling.
  - by apply removeFromCart_within_ceiling.
Qed.

(** C4, at the input where it fails: two [addToCart] of the last piece of
    a product give one line of quantity 2 against a ceiling of 1. *)
Theorem addToCart_past_ceiling :
  run [Add Fixture.last_one; Add Fixture.last_one]
    = [ {| product := Fixture.last_one; quantity := 2 |} ] ∧
  ¬ Forall within_ceiling (run [Add Fixture.last_one; Add Fixture.last_one]).
Proof.
  split; [reflexivity|].
  intros Hall. apply Forall_cons in Hall as [Hc _].
  unfold within_ceiling in Hc. simpl in Hc. lia.
Qed.

End QuantityFacts.

(** ** The checkout *)

Section CheckoutFacts.
Variable faults : nat → option string.

Lemma replay_app (log1 log2 : list (StoreCall * option string)) (s : Store) :
  replay (log1 ++ log2) s = replay log2 (replay log1 s).
Proof. unfold replay. apply fold_left_app. Qed.

Lemma replay_cons (entry : StoreCall * option string)
    (log : list (StoreCall * option string)) (s : Store) :
  replay (entry :: log) s
  = replay log (match entry.2 with
                | None => (exec entry.1 s).1
                | Some _ => s
                end).
Proof. reflexivity. Qed.

(** Step 3 never throws: each stock-limited line has its update issued,
    with the value computed from the line's own snapshot, whatever became
    of the updates before it; what fails is written to the console. *)
Lemma for_of_update_stock (lines : list CartItem) (w : World) :
  let sc := stock_calls faults (length (calls w)) lines in
  for_of lines (update_stock_of faults) w =
    (Ok (), {| app := app w; store := replay sc (store w);
               calls := calls w ++ sc; ui := ui w ++ warnings sc |}).
Proof.
  revert w. induction lines as [|item lines IH]; intros w; simpl.
  - unfold mret, M_ret. rewrite !app_nil_r. by destruct w.
  - unfold mbind, M_bind, update_stock_of.
    case_bool_decide as Hlim.
    + unfold mbind, M_bind, request.
      destruct (faults (length (calls w))) as [e|] eqn:Hf; simpl;
        rewrite IH; simpl; rewrite length_app; simpl;
        replace (length (calls w) + 1)%nat with (S (length (calls w))) by lia;
        rewrite <- !app_assoc; simpl; reflexivity.
    + unfold mret, M_ret. apply IH.
Qed.

Lemma valid_checks (a : AppState) :
  valid a →
  bool_decide (length (cart a) = 0%nat) = false ∧
  blank (customerName a) = false ∧
  bool_decide (paymentMethod a = "Cash")
    && JsNumber.ltb (paid a) (Cart.cartTotal (cart a)) = false.
Proof.
  intros (Hcart & Hname & Hpay). repeat split; [|done|].
  - apply bool_decide_eq_false_2. by destruct (cart a).
  - apply andb_false_iff.
    destruct (decide (paymentMethod a = "Cash")) as [Hc|Hc].
    + right. unfold JsNumber.lt in Hpay.
      destruct (JsNumber.ltb (paid a) (Cart.cartTotal (cart a))); tauto.
    + left. by apply bool_decide_eq_false_2.
Qed.

(** Runs [handleCheckout] on [w] up to its first store call. *)
Ltac past_the_checks w Hvalid :=
  let Hc1 := fresh "Hc" in
  let Hc2 := fresh "Hc" in
  let Hc3 := fresh "Hc" in
  destruct (valid_checks _ Hvalid) as (Hc1 & Hc2 & Hc3);
  unfold handleCheckout, mbind, M_bind, get_app; simpl;
  rewrite Hc1, Hc2; fold (paid (app w)); rewrite Hc3;
  unfold setIsProcessing, set_app, try_catch_finally, request,
    mbind, M_bind; simpl.

(** The checkout that goes through. *)
Lemma handleCheckout_completed (w : World) :
  valid (app w) →
  faults (length (calls w)) = None →
  faults (S (length (calls w))) = None →
  let transactionId := next_id (store w) in
  let tx := InsertTransaction (transaction_values (app w)) in
  let rows := InsertTransactionItems (map (item_row transactionId) (cart (app w))) in
  let sc := stock_calls faults (S (S (length (calls w)))) (cart (app w)) in
  handleCheckout faults w =
    (Ok (Completed transactionId),
     {| app := fresh_form;
        store := replay ([(tx, None); (rows, None)] ++ sc) (store w);
        calls := calls w ++ [(tx, None); (rows, None)] ++ sc;
        ui := ui w ++ warnings sc ++ [FetchProducts; FetchHistory] |}).
Proof.
  intros Hvalid Hf1 Hf2.
  past_the_checks w Hvalid.
  rewrite Hf1. simpl. rewrite length_app. simpl.
  replace (length (calls w) + 1)%nat with (S (length (calls w))) by lia.
  rewrite Hf2. simpl.
  rewrite for_of_update_stock. simpl.
  rewrite !length_app. simpl.
  replace (length (calls w) + 1 + 1)%nat with (S (S (length (calls w)))) by lia.
  unfold item_row, transaction_values, fresh_form.
  rewrite <- !app_assoc. simpl. reflexivity.
Qed.

(** Step 1 fails. *)
Lemma handleCheckout_step1_fails (w : World) (e : string) :
  valid (app w) →
  faults (length (calls w)) = Some e →
  handleCheckout faults w =
    (Ok (CheckoutFailed e),
     {| app := with_isProcessing false (app w);
        store := store w;
        calls := calls w ++ [(InsertTransaction (transaction_values (app w)), Some e)];
        ui := ui w ++ [ConsoleError "Checkout failed" e;
                       Alert ("Checkout gagal: " +:+ e)] |}).
Proof.
  intros Hvalid Hf1.
  past_the_checks w Hvalid.
  rewrite Hf1. simpl.
  rewrite <- !app_assoc. reflexivity.
Qed.

(** Step 1 goes through and step 2 fails. *)
Lemma handleCheckout_step2_fails (w : World) (e : string) :
  valid (app w) →
  faults (length (calls w)) = None →
  faults (S (length (calls w))) = Some e →
  let transactionId := next_id (store w) in
  let tx := InsertTransaction (transaction_values (app w)) in
  let rows := InsertTransactionItems (map (item_row transactionId) (cart (app w))) in
  handleCheckout faults w =
    (Ok (CheckoutFailed e),
     {| app := with_isProcessing false (app w);
        store := (exec tx (store w)).1;
        calls := calls w ++ [(tx, None); (rows, Some e)];
        ui := ui w ++ [ConsoleError "Checkout failed" e;
                       Alert ("Checkout gagal: " +:+ e)] |}).
Proof.
  intros Hvalid Hf1 Hf2.
  past_the_checks w Hvalid.
  rewrite Hf1. simpl. rewrite length_app. simpl.
  replace (length (calls w) + 1)%nat with (S (length (calls w))) by lia.
  rewrite Hf2. simpl.
  rewrite <- !app_assoc. reflexivity.
Qed.

End CheckoutFacts.

Section StockFacts.
Variable faults : nat → option string.

(** The stock updates touch no table but [products]. *)
Lemma replay_stock_calls_tables (lines : list CartItem) (n : nat) (s : Store) :
  let s' := replay (stock_calls faults n lines) s in
  transactions s' = transactions s ∧
  transaction_items s' = transaction_items s ∧
  next_id s' = next_id s ∧ now s' = now s.
Proof.
  revert n s. induction lines as [|item lines IH]; intros n s; simpl; [done|].
  case_bool_decide; [|apply IH].
  simpl. destruct (faults n); simpl; [apply IH|].
  match goal with |- context [replay _ ?s1] => specialize (IH (S n) s1) end.
  simpl in IH. exact IH.
Qed.

Lemma replay_stock_calls_products (lines : list CartItem) (n : nat)
    (s1 s2 : Store) :
  products s1 = products s2 →
  products (replay (stock_calls faults n lines) s1)
  = products (replay (stock_calls faults n lines) s2).
Proof.
  revert n s1 s2.
  induction lines as [|item lines IH]; intros n s1 s2 Heq; simpl; [done|].
  case_bool_decide; [|by apply IH].
  simpl. destruct (faults n); simpl; apply IH; simpl; by rewrite ?Heq.
Qed.

(** A product that no line of the cart names keeps its row. *)
Lemma replay_stock_calls_other (lines : list CartItem) (n : nat) (s : Store)
    (productId : Z) :
  Forall (λ item : CartItem, id item ≠ productId) lines →
  products (replay (stock_calls faults n lines) s) !! productId
  = products s !! productId.
Proof.
  revert n s.
  induction lines as [|item lines IH]; intros n s Hall; simpl; [done|].
  apply Forall_cons in Hall as [Hid Hall].
  case_bool_decide; [|by apply IH].
  simpl. destruct (faults n); simpl; rewrite IH by done; simpl; [done|].
  by rewrite lookup_alter_ne.
Qed.

(** Each stock-limited line has its own update in the log, and the row of
    its product ends as that call alone decides: the snapshot less the
    quantity when it went through, untouched when it failed. *)
Lemma stock_calls_line (lines : list CartItem) (n : nat) (s : Store)
    (i : nat) (item : CartItem) :
  NoDup ((λ item : CartItem, id item) <$> lines) →
  lines !! i = Some item →
  stock item ≠ -1 →
  let k := call_of_line n lines i in
  let sc := stock_calls faults n lines in
  (UpdateStock (id item) (stock item - quantity item), faults k) ∈ sc ∧
  products (replay sc s) !! id item =
    match faults k with
    | None => (λ p, with_stock p (stock item - quantity item))
                <$> products s !! id item
    | Some _ => products s !! id item
    end.
Proof.
  unfold call_of_line.
  revert n s i. induction lines as [|first lines IH]; intros n s i Hnd Hi Hlim;
    [done|].
  rewrite fmap_cons in Hnd. apply NoDup_cons in Hnd as [Hfresh Hnd].
  destruct i as [|i]; cbn [lookup list_lookup] in Hi.
  - injection Hi as ->. cbn [stock_calls take].
    rewrite bool_decide_eq_true_2 by done.
    rewrite filter_nil. cbn [length]. rewrite Nat.add_0_r.
    split; [left|]. rewrite replay_cons. cbn [fst snd].
    rewrite replay_stock_calls_other.
    + destruct (faults n); simpl; [done|]. by rewrite lookup_alter_eq.
    + apply Forall_forall. intros other Hin Heq. apply Hfresh.
      apply list_elem_of_fmap. by exists other.
  - assert (id first ≠ id item) as Hne.
    { intros Heq. apply Hfresh. rewrite Heq.
      apply list_elem_of_fmap. exists item. split; [done|].
      by eapply list_elem_of_lookup_2. }
    cbn [stock_calls take]. rewrite filter_cons.
    destruct (decide (stock first ≠ -1)) as [Hfirst|Hfirst].
    + rewrite bool_decide_eq_true_2 by done. cbn [length].
      rewrite replay_cons. cbn [fst snd].
      replace (n + S _)%nat with
        (S n + length (filter (λ item : CartItem, stock item ≠ (-1)%Z)
                              (take i lines)))%nat by lia.
      set (s1 := match faults n with
                 | None => _
                 | Some _ => s
                 end).
      destruct (IH (S n) s1 i Hnd Hi Hlim) as [Hin Hlook].
      split; [by right|]. rewrite Hlook.
      assert (products s1 !! id item = products s !! id item) as ->; [|done].
      subst s1. destruct (faults n); simpl; [done|].
      by rewrite lookup_alter_ne.
    + rewrite bool_decide_eq_false_2 by done.
      destruct (IH n s i Hnd Hi Hlim) as [Hin Hlook]. by split.
Qed.

Lemma warnings_elem (log : list (StoreCall * option string))
    (productId value : Z) (e : string) :
  (UpdateStock productId value, Some e) ∈ log →
  ConsoleError ("Failed to update stock for product " +:+ pretty productId) e
    ∈ warnings log.
Proof.
  intros Hin. unfold warnings. apply list_elem_of_omap.
  by exists (UpdateStock productId value, Some e).
Qed.

(** The calls of step 3 are the updates of the stock-limited lines, in
    the order of the cart, each with the absolute value
    [snapshot - quantity]. *)
Lemma stock_calls_requests (lines : list CartItem) (n : nat) :
  map fst (stock_calls faults n lines)
  = map (λ item : CartItem,
           UpdateStock (id item) (stock item - quantity item))
        (filter (λ item : CartItem, stock item ≠ -1) lines).
Proof.
  revert n. induction lines as [|item lines IH]; intros n; simpl; [done|].
  rewrite filter_cons. case_bool_decide.
  - rewrite decide_True by done. simpl. by rewrite IH.
  - rewrite decide_False by naive_solver. apply IH.
Qed.

End StockFacts.

Section CommitFacts.
Variable faults : nat → option string.

(** The tables after the three steps: one more transaction, its items,
    and the products as the stock updates that went through leave them. *)
Lemma replay_commit (v : Transaction.Values) (rows : list TransactionItem.t)
    (lines : list CartItem) (n : nat) (s : Store) :
  let row := {| Transaction.id := next_id s; Transaction.values := v;
                Transaction.timestamp := now s |} in
  let sc := stock_calls faults n lines in
  let s' := replay ([(InsertTransaction v, None);
                     (InsertTransactionItems rows, None)] ++ sc) s in
  transactions s' = transactions s ++ [row] ∧
  transaction_items s' = transaction_items s ++ rows ∧
  products s' = products (replay sc s).
Proof.
  cbn zeta. rewrite replay_app.
  match goal with |- context [replay (stock_calls _ _ _) ?s2] =>
    destruct (replay_stock_calls_tables faults lines n s2) as (-> & -> & _)
  end.
  repeat split. by apply replay_stock_calls_products.
Qed.


(** C5. A checkout whose first two steps go through adds one transaction
    row, with the cart total, the amount paid and the change
    [max 0 (paid - total)], and one item row per cart line that carries
    the name and price of the line; for the cart of two lines
    10000 x 2 and 5000 x 1 paid with 30000 in cash the total is 25000, the
    change 5000, and the two item rows sum to 25000. *)
Theorem handleCheckout_round_trip (w : World) :
  valid (app w) →
  faults (length (calls w)) = None →
  faults (S (length (calls w))) = None →
  ∃ (w' : World) (row : Transaction.t),
    handleCheckout faults w = (Ok (Completed (Transaction.id row)), w') ∧
    transactions (store w') = transactions (store w) ++ [row] ∧
    Transaction.total_amount row = Cart.cartTotal (cart (app w)) ∧
    Transaction.amount_paid row = paid (app w) ∧
    Transaction.change_amount row
      = JsNumber.max 0 (JsNumber.sub (paid (app w))
                                     (Cart.cartTotal (cart (app w)))) ∧
    transaction_items (store w')
      = transaction_items (store w)
        ++ map (item_row (Transaction.id row)) (cart (app w)) ∧
    ∀ p1 p2 : Product,
      cart (app w) = [ {| product := p1; quantity := 2 |};
                       {| product := p2; quantity := 1 |} ] →
      price p1 = 10000 → price p2 = 5000 →
      paymentMethod (app w) = "Cash" →
      amountPaid (app w) = Some (JsNumber.Int 30000) →
      Transaction.total_amount row = 25000 ∧
      Transaction.change_amount row = 5000 ∧
      ∃ i1 i2 : TransactionItem.t,
        transaction_items (store w') = transaction_items (store w) ++ [i1; i2] ∧
        TransactionItem.product_name i1 = name p1 ∧
        TransactionItem.price i1 = 10000 ∧ TransactionItem.quantity i1 = 2 ∧
        TransactionItem.product_name i2 = name p2 ∧
        TransactionItem.price i2 = 5000 ∧ TransactionItem.quantity i2 = 1 ∧
        TransactionItem.transaction_id i1 = Transaction.id row ∧
        TransactionItem.transaction_id i2 = Transaction.id row ∧
        TransactionItem.price i1 * TransactionItem.quantity i1
        + TransactionItem.price i2 * TransactionItem.quantity i2 = 25000.
Proof.
  intros Hvalid Hf1 Hf2.
  eexists _, {| Transaction.id := next_id (store w);
                Transaction.values := transaction_values (app w);
                Transaction.timestamp := now (store w) |}.
  split; [by apply handleCheckout_completed|].
  cbn [store Transaction.id].
  match goal with |- context [replay (_ ++ stock_calls _ ?n ?l) ?s] =>
    destruct (replay_commit (transaction_values (app w))
                (map (item_row (next_id (store w))) (cart (app w))) l n s)
      as (Ht & Hi & _)
  end.
  rewrite Ht, Hi. repeat (split; [done|]).
  intros p1 p2 Hcart Hp1 Hp2 Hcash Hpaid. simpl.
  unfold paid. rewrite Hpaid, Hcart, !cartTotal_cons. simpl.
  rewrite Hp1, Hp2. unfold Cart.cartTotal. simpl.
  repeat (split; [done|]).
  eexists _, _. split; [reflexivity|]. simpl. rewrite Hp1, Hp2. done.
Qed.

End CommitFacts.

Section FailureFacts.
Variable faults : nat → option string.

(** C6. When steps 1 and 2 go through, the checkout completes whatever
    the stock updates do: the form is reset with an empty cart and the
    success banner, no alert is raised, the transaction and its items
    stay, every stock-limited line has its update issued in cart order,
    the products are as the updates that went through leave them, and
    each update that failed is written to the console. With one line per
    product, the row of a line's product is decided by that line's call
    alone. *)
Theorem stock_update_failure_is_not_fatal (w : World) :
  valid (app w) →
  faults (length (calls w)) = None →
  faults (S (length (calls w))) = None →
  ∃ (w' : World) (row : Transaction.t) (sc : list (StoreCall * option string)),
    handleCheckout faults w = (Ok (Completed (Transaction.id row)), w') ∧
    app w' = fresh_form ∧
    ui w' = ui w ++ warnings sc ++ [FetchProducts; FetchHistory] ∧
    transactions (store w') = transactions (store w) ++ [row] ∧
    transaction_items (store w')
      = transaction_items (store w)
        ++ map (item_row (Transaction.id row)) (cart (app w)) ∧
    calls w' = calls w
      ++ [(InsertTransaction (transaction_values (app w)), None);
          (InsertTransactionItems
             (map (item_row (Transaction.id row)) (cart (app w))), None)]
      ++ sc ∧
    map fst sc
      = map (λ item : CartItem,
               UpdateStock (id item) (stock item - quantity item))
            (filter (λ item : CartItem, stock item ≠ -1) (cart (app w))) ∧
    products (store w') = products (replay sc (store w)) ∧
    (NoDup ((λ item : CartItem, id item) <$> cart (app w)) →
     ∀ (i : nat) (item : CartItem),
       cart (app w) !! i = Some item → stock item ≠ -1 →
       match faults (call_of_line (S (S (length (calls w)))) (cart (app w)) i) with
       | None =>
           products (store w') !! id item
           = (λ p, with_stock p (stock item - quantity item))
               <$> products (store w) !! id item
       | Some sError =>
           products (store w') !! id item = products (store w) !! id item ∧
           ConsoleError
             ("Failed to update stock for product " +:+ pretty (id item))
             sError ∈ ui w'
       end).
Proof.
  intros Hvalid Hf1 Hf2.
  eexists _, {| Transaction.id := next_id (store w);
                Transaction.values := transaction_values (app w);
                Transaction.timestamp := now (store w) |}, _.
  split; [by apply handleCheckout_completed|].
  cbn [app ui store calls Transaction.id].
  set (n := S (S (length (calls w)))).
  destruct (replay_commit faults (transaction_values (app w))
              (map (item_row (next_id (store w))) (cart (app w)))
              (cart (app w)) n (store w)) as (Ht & Hi & Hp).
  rewrite Ht, Hi, Hp.
  repeat (split; [done|]).
  split; [apply stock_calls_requests|].
  split; [done|].
  intros Hnd i item Hline Hlim.
  destruct (stock_calls_line faults (cart (app w)) n (store w) i item
              Hnd Hline Hlim) as [Hin Hlook].
  rewrite Hlook.
  destruct (faults (call_of_line n (cart (app w)) i)) as [sError|]; [|done].
  split; [done|].
  apply elem_of_app. right. apply elem_of_app. left.
  by eapply warnings_elem.
Qed.

(** C10. With the amount field left blank, whatever the payment method,
    the payment check passes and the transaction row records the cart
    total as the amount paid, with no change. *)
Theorem blank_amount_defaults_to_total (w : World) :
  cart (app w) ≠ [] →
  blank (customerName (app w)) = false →
  amountPaid (app w) = None →
  faults (length (calls w)) = None →
  ∃ (e : Exit) (w' : World) (row : Transaction.t),
    handleCheckout faults w = (Ok e, w') ∧
    e ≠ InsufficientPayment ∧
    transactions (store w') = transactions (store w) ++ [row] ∧
    Transaction.total_amount row = Cart.cartTotal (cart (app w)) ∧
    Transaction.amount_paid row = Cart.cartTotal (cart (app w)) ∧
    Transaction.change_amount row = 0 ∧
    Transaction.payment_method row = paymentMethod (app w).
Proof.
  intros Hcart Hname Hblank Hf1.
  assert (paid (app w) = Cart.cartTotal (cart (app w))) as Hpaid
    by (unfold paid; by rewrite Hblank).
  assert (valid (app w)) as Hvalid.
  { repeat split; [done|done|]. rewrite Hpaid. intros [_ Hlt].
    unfold JsNumber.lt in Hlt. cbn [JsNumber.ltb] in Hlt.
    apply bool_decide_eq_true_1 in Hlt. lia. }
  pose (row := {| Transaction.id := next_id (store w);
                  Transaction.values := transaction_values (app w);
                  Transaction.timestamp := now (store w) |}).
  assert (Transaction.change_amount row = 0) as Hchange
    by (simpl; rewrite Hpaid; cbn [JsNumber.sub JsNumber.max]; f_equal; lia).
  destruct (faults (S (length (calls w)))) as [e|] eqn:Hf2.
  - eexists _, _, row.
    split; [by apply handleCheckout_step2_fails|].
    repeat split; done.
  - eexists _, _, row.
    split; [by apply handleCheckout_completed|].
    cbn [store].
    match goal with |- context [replay (_ ++ stock_calls _ ?n ?l) ?s] =>
      destruct (replay_commit faults (transaction_values (app w))
                  (map (item_row (next_id (store w))) (cart (app w))) l n s)
        as (Ht & _ & _)
    end.
    rewrite Ht. repeat split; done.
Qed.

(** Choosing a method other than cash puts the cart total in the amount
    field. *)
Lemma selectPaymentMethod_fills_amount (value : string) (w : World) :
  value ≠ "Cash" →
  ∃ w' : World,
    selectPaymentMethod value w = (Ok (), w') ∧
    amountPaid (app w') = Some (JsNumber.Int (Cart.cartTotal (cart (app w)))) ∧
    paymentMethod (app w') = value ∧
    cart (app w') = cart (app w) ∧
    store w' = store w ∧ calls w' = calls w.
Proof.
  intros Hne. unfold selectPaymentMethod, mbind, M_bind, get_app. simpl.
  rewrite bool_decide_eq_true_2 by done.
  eexists. split; [reflexivity|]. done.
Qed.

(** C2, as the program has it. A failed write of step 1 or of step 2 ends
    in the same [catch] block: the message of the store goes to the
    console and into an alert, and nothing tells the two apart. After a
    failed step 1 the store is as it was and no other call was issued.
    After a failed step 2 the transaction of step 1 stays, alone: no item
    row was added (and in a consistent store none refers to it), no stock
    update was issued, and the cart is still there. *)
Theorem checkout_write_failure (w : World) (e : string) :
  valid (app w) →
  (faults (length (calls w)) = Some e →
   ∃ w' : World,
     handleCheckout faults w = (Ok (CheckoutFailed e), w') ∧
     ui w' = ui w ++ [ConsoleError "Checkout failed" e;
                      Alert ("Checkout gagal: " +:+ e)] ∧
     store w' = store w ∧
     calls w' = calls w
       ++ [(InsertTransaction (transaction_values (app w)), Some e)] ∧
     cart (app w') = cart (app w)) ∧
  (faults (length (calls w)) = None →
   faults (S (length (calls w))) = Some e →
   ∃ (w' : World) (row : Transaction.t),
     handleCheckout faults w = (Ok (CheckoutFailed e), w') ∧
     ui w' = ui w ++ [ConsoleError "Checkout failed" e;
                      Alert ("Checkout gagal: " +:+ e)] ∧
     transactions (store w') = transactions (store w) ++ [row] ∧
     Transaction.id row = next_id (store w) ∧
     Transaction.values row = transaction_values (app w) ∧
     transaction_items (store w') = transaction_items (store w) ∧
     (consistent (store w) →
      Forall (λ item, TransactionItem.transaction_id item ≠ Transaction.id row)
             (transaction_items (store w'))) ∧
     products (store w') = products (store w) ∧
     calls w' = calls w
       ++ [(InsertTransaction (transaction_values (app w)), None);
           (InsertTransactionItems
              (map (item_row (Transaction.id row)) (cart (app w))), Some e)] ∧
     cart (app w') = cart (app w)).
Proof.
  intros Hvalid. split.
  - intros Hf1. eexists. split; [by apply handleCheckout_step1_fails|].
    repeat split; done.
  - intros Hf1 Hf2.
    eexists _, {| Transaction.id := next_id (store w);
                  Transaction.values := transaction_values (app w);
                  Transaction.timestamp := now (store w) |}.
    split; [by apply handleCheckout_step2_fails|].
    repeat (split; [done|]).
    split; [|done].
    intros Hcons. simpl. unfold consistent in Hcons.
    eapply Forall_impl; [exact Hcons|]. simpl. intros; lia.
Qed.

End FailureFacts.

(** ** The statements at concrete inputs *)

Section Instances.
Import Fixture.


Lemma round_trip_valid :
  valid (form [line seblak 2; line esteh 1] "Budi" (Some 30000) "Cash").
Proof.
  repeat split; [discriminate|].
  intros [_ Hshort]. vm_compute in Hshort. discriminate.
Defined.

Lemma handleCheckout_round_trip_witness :
  ∃ (w' : World) (row : Transaction.t),
    handleCheckout no_faults
      (session (form [line seblak 2; line esteh 1] "Budi" (Some 30000) "Cash")
               shop)
    = (Ok (Completed (Transaction.id row)), w') ∧
    transactions (store w') = [row] ∧
    Transaction.total_amount row = 25000 ∧
    Transaction.change_amount row = 5000 ∧
    length (transaction_items (store w')) = 2%nat.
Proof.
  destruct (handleCheckout_round_trip no_faults
              (session (form [line seblak 2; line esteh 1] "Budi"
                             (Some 30000) "Cash") shop)
              round_trip_valid eq_refl eq_refl)
    as (w' & row & Hrun & Ht & _ & _ & _ & _ & Hcase).
  destruct (Hcase seblak esteh eq_refl eq_refl eq_refl eq_refl eq_refl)
    as (Htotal & Hchange & i1 & i2 & Hitems & _).
  exists w', row. repeat split; try assumption.
  rewrite Hitems. reflexivity.
Defined.

Lemma mixed_cart_valid :
  valid (form [line ceker 2; line seblak 1; line last_one 1] "Budi" None "QRIS").
Proof.
  repeat split; [discriminate|]. intros [Hcash _]. discriminate.
Defined.

(** The update of the first line fails, the one of the third goes through. *)
Lemma stock_update_failure_is_not_fatal_witness :
  ∃ (w' : World) (row : Transaction.t),
    handleCheckout (fail_at 2 "timeout")
      (session (form [line ceker 2; line seblak 1; line last_one 1]
                     "Budi" None "QRIS") shop)
    = (Ok (Completed (Transaction.id row)), w') ∧
    cart (app w') = [] ∧
    products (store w') !! 3 = Some ceker ∧
    products (store w') !! 6 = Some (with_stock last_one 0).
Proof.
  destruct (stock_update_failure_is_not_fatal (fail_at 2 "timeout")
              (session (form [line ceker 2; line seblak 1; line last_one 1]
                             "Budi" None "QRIS") shop)
              mixed_cart_valid eq_refl eq_refl)
    as (w' & row & sc & Hrun & Happ & _ & _ & _ & _ & _ & _ & Hlines).
  assert (NoDup ((λ item : CartItem, id item)
                   <$> [line ceker 2; line seblak 1; line last_one 1])) as Hnd
    by (apply (bool_decide_unpack _); vm_compute; exact I).
  assert (stock (line ceker 2) ≠ -1) as Hceker by discriminate.
  assert (stock (line last_one 1) ≠ -1) as Hlast by discriminate.
  pose proof (Hlines Hnd 0%nat (line ceker 2) eq_refl Hceker) as H0.
  pose proof (Hlines Hnd 2%nat (line last_one 1) eq_refl Hlast) as H2.
  change (fail_at 2 "timeout" (call_of_line _ _ 0)) with (Some "timeout") in H0.
  change (fail_at 2 "timeout" (call_of_line _ _ 2)) with (@None string) in H2.
  destruct H0 as [H0 _].
  change (id (line ceker 2)) with 3 in H0.
  change (id (line last_one 1)) with 6 in H2.
  exists w', row. rewrite Happ, H0, H2.
  split; [exact Hrun|]. repeat split; vm_compute; reflexivity.
Defined.

Lemma blank_amount_defaults_to_total_witness :
  ∃ (w' : World) (row : Transaction.t),
    snd (handleCheckout no_faults
           (session (form [line ceker 2] "Budi" None "Transfer") shop)) = w' ∧
    transactions (store w') = [row] ∧
    Transaction.amount_paid row = 4000 ∧
    Transaction.change_amount row = 0.
Proof.
  destruct (blank_amount_defaults_to_total no_faults
              (session (form [line ceker 2] "Budi" None "Transfer") shop)
              ltac:(discriminate) eq_refl eq_refl eq_refl)
    as (e & w' & row & Hrun & _ & Ht & _ & Hpaid & Hchange & _).
  exists w', row. rewrite Hrun. repeat split; assumption.
Defined.

Lemma ceker_valid : valid (form [line ceker 2] "Budi" (Some 5000) "Cash").
Proof.
  repeat split; [discriminate|].
  intros [_ Hshort]. vm_compute in Hshort. discriminate.
Defined.

Lemma checkout_write_failure_witness :
  ∃ (w' : World) (row : Transaction.t),
    handleCheckout (fail_at 1 "fetch failed")
      (session (form [line ceker 2] "Budi" (Some 5000) "Cash") shop)
    = (Ok (CheckoutFailed "fetch failed"), w') ∧
    transactions (store w') = [row] ∧
    transaction_items (store w') = [] ∧
    cart (app w') = [line ceker 2].
Proof.
  destruct (checkout_write_failure (fail_at 1 "fetch failed")
              (session (form [line ceker 2] "Budi" (Some 5000) "Cash") shop)
              "fetch failed" ceker_valid) as [_ Hstep2].
  destruct (Hstep2 eq_refl eq_refl)
    as (w' & row & Hrun & _ & Ht & _ & _ & Hi & _ & _ & _ & Hcart).
  exists w', row. repeat split; assumption.
Defined.

(** C2, as it is stated, fails here: the store loses the connection once
    during step 1 and once during step 2. The second run leaves a
    transaction without items behind and the first leaves nothing, and
    the handler ends both in the same way, with the same console line and
    the same alert. *)
Lemma partial_commit_is_not_told_apart :
  let w := session (form [line ceker 2] "Budi" (Some 5000) "Cash") shop in
  let step1 := handleCheckout (fail_at 0 "fetch failed") w in
  let step2 := handleCheckout (fail_at 1 "fetch failed") w in
  transactions (store step1.2) = [] ∧
  length (transactions (store step2.2)) = 1%nat ∧
  transaction_items (store step2.2) = [] ∧
  step1.1 = Ok (CheckoutFailed "fetch failed") ∧
  step2.1 = step1.1 ∧
  ui step2.2 = ui step1.2 ∧
  app step2.2 = app step1.2.
Proof. vm_compute. repeat split. Qed.

End Instances.

(** ** Stock under two terminals *)

Section TwoTerminals.
Import Fixture.

(** What [handleCheckout] asks of the store for a line is to set the
    stock to the line's snapshot less its quantity: the value does not
    depend on the row the store holds. *)
Lemma exec_update_stock_absolute (productId value : Z) (s : Store) (p : Product) :
  products s !! productId = Some p →
  stock <$> products (exec (UpdateStock productId value) s).1 !! productId
  = Some value.
Proof. intros Hp. simpl. by rewrite lookup_alter_eq, Hp. Qed.

(** [updateStock] of the earlier server subtracts from the row the
    database holds. *)
Lemma server_updateStock_relative (q productId : Z) (db : Store) (p : Product) :
  products db !! productId = Some p →
  stock p > -1 →
  stock <$> products (Server.updateStock q productId db) !! productId
  = Some (stock p - q).
Proof.
  intros Hp Hlim. simpl. rewrite lookup_alter_eq, Hp. simpl.
  by rewrite bool_decide_eq_true_2.
Qed.

(** One step of a log keeps the rows of [products] in place. *)
Lemma replay_step_is_Some (entry : StoreCall * option string) (s : Store)
    (productId : Z) :
  is_Some (products s !! productId) →
  is_Some (products (replay [entry] s) !! productId).
Proof.
  destruct entry as [[v|rows|pid value] [e|]]; simpl; try done.
  intros [p Hp]. destruct (decide (pid = productId)) as [->|Hne].
  - rewrite lookup_alter_eq, Hp. by eexists.
  - rewrite lookup_alter_ne by done. by eexists.
Qed.

(** Once the stock of a product is [value], it stays so through any calls
    whose updates of that product all carry [value]. *)
Lemma replay_keeps_stock (log : list (StoreCall * option string)) (s : Store)
    (productId value : Z) :
  (∀ v e, (UpdateStock productId v, e) ∈ log → v = value) →
  stock <$> products s !! productId = Some value →
  stock <$> products (replay log s) !! productId = Some value.
Proof.
  revert s. induction log as [|entry log IH]; intros s Hall Hs; [done|].
  rewrite replay_cons. apply IH.
  - intros v e Hin. apply (Hall v e). by right.
  - destruct entry as [[v|rows|pid v] [e|]]; simpl; try done.
    destruct (decide (pid = productId)) as [->|Hne].
    + rewrite lookup_alter_eq. destruct (products s !! productId); [|done].
      simpl. f_equal. apply (Hall v None). left.
    + by rewrite lookup_alter_ne.
Qed.

(** The stock a product ends with when every update of it carries the
    same value does not depend on the order of the calls: it is that
    value as soon as one of the updates goes through. *)
Lemma replay_absolute_updates (log : list (StoreCall * option string))
    (s : Store) (productId value : Z) :
  (∀ v e, (UpdateStock productId v, e) ∈ log → v = value) →
  (UpdateStock productId value, None) ∈ log →
  is_Some (products s !! productId) →
  stock <$> products (replay log s) !! productId = Some value.
Proof.
  revert s. induction log as [|entry log IH]; intros s Hall Hin Hs.
  - by apply elem_of_nil in Hin.
  - rewrite replay_cons.
    apply elem_of_cons in Hin as [<-|Hin].
    + apply replay_keeps_stock.
      * intros v e Hv. apply (Hall v e). by right.
      * simpl. rewrite lookup_alter_eq. by destruct Hs as [p ->].
    + apply IH; [|done|by apply (replay_step_is_Some entry)].
      intros v e Hv. apply (Hall v e). by right.
Qed.

(** C1, at the input where it fails. Two terminals have each put one
    piece of the same product in the cart while its stock was 10, and
    both check out. Each asks the store to set the stock to 9, and 9 is
    what the store ends with, in whatever order it takes the calls of the
    two. *)
Theorem two_checkouts_lose_an_update :
  let cartA := [line ceker 1] in
  let cartB := [line ceker 1] in
  let first :=
    handleCheckout no_faults (session (form cartA "Ani" (Some 2000) "Cash") shop) in
  let second :=
    handleCheckout no_faults
      (session (form cartB "Budi" (Some 2000) "Cash") (store first.2)) in
  stock <$> products shop !! 3 = Some 10 ∧
  first.1 = Ok (Completed 1) ∧
  second.1 = Ok (Completed 2) ∧
  (UpdateStock 3 9, None) ∈ calls first.2 ∧
  (UpdateStock 3 9, None) ∈ calls second.2 ∧
  stock <$> products (store second.2) !! 3 = Some 9 ∧
  ∀ log, log ≡ₚ calls first.2 ++ calls second.2 →
         stock <$> products (replay log shop) !! 3 = Some 9.
Proof.
  cbn zeta.
  set (first := handleCheckout no_faults
                  (session (form [line ceker 1] "Ani" (Some 2000) "Cash") shop)).
  set (second := handleCheckout no_faults
                   (session (form [line ceker 1] "Budi" (Some 2000) "Cash")
                            (store first.2))).
  assert (calls first.2
          = [(InsertTransaction
                (transaction_values (form [line ceker 1] "Ani" (Some 2000) "Cash")),
              None);
             (InsertTransactionItems [item_row 1 (line ceker 1)], None);
             (UpdateStock 3 9, None)]) as HA
    by (vm_compute; reflexivity).
  assert (calls second.2
          = [(InsertTransaction
                (transaction_values (form [line ceker 1] "Budi" (Some 2000) "Cash")),
              None);
             (InsertTransactionItems [item_row 2 (line ceker 1)], None);
             (UpdateStock 3 9, None)]) as HB
    by (vm_compute; reflexivity).
  assert (first.1 = Ok (Completed 1)) as H1 by (vm_compute; reflexivity).
  assert (second.1 = Ok (Completed 2)) as H2 by (vm_compute; reflexivity).
  assert (stock <$> products (store second.2) !! 3 = Some 9) as Hend
    by (vm_compute; reflexivity).
  split; [vm_compute; reflexivity|].
  split; [exact H1|]. split; [exact H2|].
  rewrite HA, HB.
  split; [do 2 right; left|]. split; [do 2 right; left|].
  split; [exact Hend|].
  clearbody first second.
  intros log Hperm. apply replay_absolute_updates.
  - intros v e Hin. rewrite Hperm in Hin. cbn [app] in Hin.
    repeat (apply elem_of_cons in Hin as [Hin|Hin]; [by simplify_eq|]).
    by apply elem_of_nil in Hin.
  - rewrite Hperm. do 2 right. left.
  - exists ceker. vm_compute. reflexivity.
Qed.

(** The same two sales through [POST /api/transactions] of the earlier
    server leave 8. *)
Lemma two_server_sales_keep_both :
  let body (customer : string) :=
    {| Server.items := [line ceker 1];
       Server.fields :=
         {| Transaction.total_amount := 2000;
            Transaction.customer_name := lit customer;
            Transaction.order_type := DineIn;
            Transaction.amount_paid := 2000;
            Transaction.change_amount := 0;
            Transaction.payment_method := "Cash" |} |} in
  let first := Server.transaction (body "Ani") shop in
  let second := Server.transaction (body "Budi") first.1 in
  stock <$> products second.1 !! 3 = Some 8.
Proof. vm_compute. reflexivity. Qed.

End TwoTerminals.

(** ** Objects used as maps *)

Section ObjectFacts.
Context {K : Type} `{EqDecision K}.
Implicit Types (acc : list (K * Z)) (k : K) (v : Z).

Lemma get_None acc k : Js.get acc k = None ↔ k ∉ acc.*1.
Proof.
  induction acc as [|[k' v'] acc IH]; simpl.
  - split; [intros _; apply not_elem_of_nil|done].
  - rewrite not_elem_of_cons. case_decide as Hk.
    + split; [done|]. intros [Hne _]. congruence.
    + rewrite IH. split; [|by intros [_ ?]].
      intros Hout. split; [congruence|done].
Qed.

Lemma get_Some_elem acc k v : Js.get acc k = Some v → (k, v) ∈ acc.
Proof.
  induction acc as [|[k' v'] acc IH]; simpl; [done|].
  case_decide as Hk.
  - intros [= ->]. subst. left.
  - intros Hget. right. by apply IH.
Qed.

Lemma elem_get acc k v : NoDup acc.*1 → (k, v) ∈ acc → Js.get acc k = Some v.
Proof.
  induction acc as [|[k' v'] acc IH]; simpl; intros Hnd Hin.
  - by apply elem_of_nil in Hin.
  - apply NoDup_cons in Hnd as [Hfresh Hnd].
    apply elem_of_cons in Hin as [[= -> ->]|Hin].
    + by rewrite decide_True.
    + rewrite decide_False; [by apply IH|].
      intros ->. apply Hfresh. apply list_elem_of_fmap. by exists (k, v).
Qed.

Lemma get_set acc k v k' :
  Js.get (Js.set acc k v) k' = if decide (k = k') then Some v else Js.get acc k'.
Proof.
  induction acc as [|[k0 v0] acc IH]; simpl.
  - done.
  - destruct (decide (k0 = k)) as [->|Hne]; simpl.
    + by repeat case_decide.
    + rewrite IH. repeat case_decide; congruence.
Qed.

(** Writing a property that exists keeps the order of the properties;
    a new property goes to the end. *)
Lemma set_keys {V} (acc : list (K * V)) k (v : V) :
  (Js.set acc k v).*1 = if decide (k ∈ acc.*1) then acc.*1 else acc.*1 ++ [k].
Proof.
  induction acc as [|[k0 v0] acc IH]; [done|].
  cbn [Js.set]. destruct (decide (k0 = k)) as [->|Hne].
  - rewrite !fmap_cons. cbn [fst]. rewrite decide_True; [done|left].
  - rewrite !fmap_cons, IH. cbn [fst].
    destruct (decide (k ∈ acc.*1)) as [Hin|Hout].
    + rewrite decide_True; [done|by right].
    + rewrite decide_False; [done|].
      rewrite not_elem_of_cons. split; [congruence|done].
Qed.

Context {A : Type} (key : A → K) (val : A → Z).
Implicit Types (rows : list A).

Lemma sum_where_app k rows1 rows2 :
  sum_where key val k (rows1 ++ rows2)
  = sum_where key val k rows1 + sum_where key val k rows2.
Proof.
  unfold sum_where. induction rows1 as [|r rows1 IH]; simpl; [done|].
  rewrite IH. lia.
Qed.

Lemma sum_where_absent k rows :
  k ∉ key <$> rows → sum_where key val k rows = 0.
Proof.
  unfold sum_where. induction rows as [|r rows IH]; simpl; [done|].
  rewrite not_elem_of_cons. intros [Hne Hout].
  rewrite decide_False by done. rewrite IH by done. done.
Qed.

Lemma group_sum_snoc rows r :
  Js.group_sum key val (rows ++ [r])
  = Js.set (Js.group_sum key val rows) (key r)
      (Js.get_or_0 (Js.group_sum key val rows) (key r) + val r).
Proof. unfold Js.group_sum. by rewrite fold_left_app. Qed.

(** The value kept under a key is the sum over the rows of that key. *)
Lemma group_sum_get rows k :
  Js.get (Js.group_sum key val rows) k
  = if decide (k ∈ key <$> rows) then Some (sum_where key val k rows) else None.
Proof.
  revert k. induction rows as [|r rows IH] using rev_ind; intros k.
  - done.
  - rewrite group_sum_snoc, get_set, fmap_app, sum_where_app. simpl.
    unfold Js.get_or_0. rewrite !IH.
    destruct (decide (key r = k)) as [<-|Hne].
    + destruct (decide (key r ∈ (key <$> rows) ++ [key r])) as [_|Hno];
        [|destruct Hno; apply elem_of_app; right; left].
      destruct (decide (key r ∈ key <$> rows)) as [Hin|Hout]; simpl.
      * f_equal. lia.
      * rewrite sum_where_absent by done. f_equal. lia.
    + destruct (decide (k ∈ key <$> rows)) as [Hin|Hout].
      * destruct (decide (k ∈ (key <$> rows) ++ [key r])) as [_|Hno];
          [|destruct Hno; apply elem_of_app; by left].
        f_equal. lia.
      * destruct (decide (k ∈ (key <$> rows) ++ [key r])) as [Hyes|_]; [|done].
        apply elem_of_app in Hyes as [Hyes|Hyes]; [done|].
        apply list_elem_of_singleton in Hyes. congruence.
Qed.

Lemma group_sum_keys rows k :
  k ∈ (Js.group_sum key val rows).*1 ↔ k ∈ key <$> rows.
Proof.
  destruct (decide (k ∈ (Js.group_sum key val rows).*1)) as [Hin|Hout].
  - split; [intros _|done].
    destruct (decide (k ∈ key <$> rows)) as [|Hno]; [done|].
    pose proof (group_sum_get rows k) as Hget.
    rewrite decide_False in Hget by done.
    by apply get_None in Hget.
  - split; [done|]. intros Hrows.
    apply get_None in Hout. rewrite group_sum_get in Hout.
    by rewrite decide_True in Hout.
Qed.

Lemma group_sum_NoDup rows : NoDup (Js.group_sum key val rows).*1.
Proof.
  induction rows as [|r rows IH] using rev_ind; [constructor|].
  rewrite group_sum_snoc, set_keys. case_decide as Hin; [done|].
  apply NoDup_app. split; [done|]. split; [|apply NoDup_singleton].
  intros k Hk Hk'. apply list_elem_of_singleton in Hk'. by subst.
Qed.

Lemma group_sum_elem rows k v :
  (k, v) ∈ Js.group_sum key val rows
  ↔ k ∈ key <$> rows ∧ v = sum_where key val k rows.
Proof.
  split.
  - intros Hin. apply elem_get in Hin; [|apply group_sum_NoDup].
    rewrite group_sum_get in Hin. case_decide; naive_solver.
  - intros [Hin ->]. apply get_Some_elem.
    rewrite group_sum_get. by rewrite decide_True.
Qed.

End ObjectFacts.

(** ** Order of appearance *)

Section BeforeFacts.
Context {A : Type}.
Implicit Types (l : list A) (x y : A).





End BeforeFacts.

Section FirstIndexFacts.
Context {A K : Type} `{EqDecision K} (key : A → K) (val : A → Z).
Implicit Types (rows : list A) (k : K).





End FirstIndexFacts.

(** ** [Array.prototype.sort] *)

Section SortFacts.
Context {A : Type} (cmp : A → A → Z).
Implicit Types (l : list A) (x y : A).

Lemma sort_insert_Permutation x l : Js.sort_insert cmp x l ≡ₚ x :: l.
Proof.
  induction l as [|y l IH]; simpl; [done|].
  case_bool_decide; [done|]. rewrite IH. apply Permutation_swap.
Qed.

Lemma sort_Permutation l : Js.sort cmp l ≡ₚ l.
Proof.
  induction l as [|x l IH]; simpl; [done|].
  by rewrite sort_insert_Permutation, IH.
Qed.



Context (Htotal : ∀ a b, cmp a b ≤ 0 ∨ cmp b a ≤ 0)
        (Htrans : ∀ a b c, cmp a b ≤ 0 → cmp b c ≤ 0 → cmp a c ≤ 0).

Lemma sort_insert_sorted x l :
  StronglySorted (λ a b, cmp a b ≤ 0) l →
  StronglySorted (λ a b, cmp a b ≤ 0) (Js.sort_insert cmp x l).
Proof.
  induction 1 as [|y l Hs IH Hall]; simpl.
  - repeat constructor.
  - case_bool_decide as Hle.
    + constructor; [by constructor|].
      constructor; [done|].
      eapply Forall_impl; [exact Hall|]. intros z Hyz. by eapply Htrans.
    + constructor; [done|].
      rewrite sort_insert_Permutation. constructor; [|done].
      destruct (Htotal x y); [done|done].
Qed.

Lemma sort_sorted l : StronglySorted (λ a b, cmp a b ≤ 0) (Js.sort cmp l).
Proof.
  induction l as [|x l IH]; simpl; [constructor|].
  by apply sort_insert_sorted.
Qed.

End SortFacts.

(** ** The analytics *)

Section RankingFacts.


Lemma StronglySorted_weaken {A} (R1 R2 : A → A → Prop) (l : list A) :
  (∀ a b, R1 a b → R2 a b) → StronglySorted R1 l → StronglySorted R2 l.
Proof.
  intros Himp. induction 1 as [|x l Hs IH Hall]; constructor; [done|].
  eapply Forall_impl; [exact Hall|]. intros y. apply Himp.
Qed.



Lemma by_quantity_total (a b : string * Z) : b.2 - a.2 ≤ 0 ∨ a.2 - b.2 ≤ 0.
Proof. lia. Qed.

Lemma by_quantity_trans (a b c : string * Z) :
  b.2 - a.2 ≤ 0 → c.2 - b.2 ≤ 0 → c.2 - a.2 ≤ 0.
Proof. lia. Qed.


Lemma filter_halves {A} (f : A → bool) (l : list A) :
  List.filter f l ++ List.filter (λ x, negb (f x)) l ≡ₚ l.
Proof.
  induction l as [|x l IH]; simpl; [done|].
  destruct (f x); simpl.
  - by rewrite IH.
  - rewrite <- Permutation_middle. by rewrite IH.
Qed.

(** Listing the properties of an object leaves none out and adds none. *)
Lemma entries_Permutation {V} (obj : list (string * V)) : Js.entries obj ≡ₚ obj.
Proof.
  unfold Js.entries. rewrite sort_Permutation.
  apply (filter_halves (λ e : string * V,
           bool_decide (is_Some (Js.array_index e.1)))).
Qed.

Lemma group_sum_length {A K} `{EqDecision K} (key : A → K) (val : A → Z)
    (rows : list A) :
  length (Js.group_sum key val rows) = length (remove_dups (key <$> rows)).
Proof.
  rewrite <- (length_fmap fst). apply Permutation_length.
  apply NoDup_Permutation; [apply group_sum_NoDup|apply NoDup_remove_dups|].
  intros k. rewrite elem_of_remove_dups. apply group_sum_keys.
Qed.

(** *** Product names that [Object.prototype] does not know *)

Lemma proto_in_prototype : "__proto__" ∈ Js.Object_prototype.
Proof. apply (bool_decide_unpack _). vm_compute. exact I. Qed.

Lemma get_numeric (acc : list (string * Z)) (k : string) :
  Js.get (numeric acc) k = Js.Num <$> Js.get acc k.
Proof.
  induction acc as [|[k' v'] acc IH]; [done|].
  unfold numeric in *. rewrite fmap_cons. cbn [Js.get fst snd].
  by case_decide.
Qed.

Lemma set_numeric (acc : list (string * Z)) (k : string) (v : Z) :
  Js.set (numeric acc) k (Js.Num v) = numeric (Js.set acc k v).
Proof.
  induction acc as [|[k' v'] acc IH]; [done|].
  unfold numeric in *. rewrite fmap_cons. cbn [Js.set fst snd].
  case_decide; [done|]. by rewrite IH, fmap_cons.
Qed.

(** For names that [Object.prototype] does not define, the accumulator
    holds the sums. *)
Lemma group_plus_numeric (items : list TransactionItem.t) :
  Forall (λ r, TransactionItem.product_name r ∉ Js.Object_prototype) items →
  Js.group_plus TransactionItem.product_name TransactionItem.quantity items
  = numeric (Js.group_sum TransactionItem.product_name
               TransactionItem.quantity items).
Proof.
  intros Hplain. unfold Js.group_plus, Js.group_sum.
  change (@nil (string * Js.Value)) with (numeric []).
  generalize (@nil (string * Z)).
  induction Hplain as [|r items Hr _ IH]; intros acc; [done|].
  cbn [fold_left]. rewrite <- IH. f_equal.
  unfold Js.assign, Js.plus, Js.get_or_0.
  rewrite bool_decide_eq_false_2
    by (intros Heq; apply Hr; rewrite Heq; apply proto_in_prototype).
  rewrite get_numeric.
  destruct (Js.get acc (TransactionItem.product_name r)) as [n|]; simpl.
  - by rewrite set_numeric.
  - rewrite bool_decide_eq_false_2 by done. by rewrite set_numeric.
Qed.

Lemma list_filter_fmap {A B} (f : A → B) (p : B → bool) (l : list A) :
  List.filter p (f <$> l) = f <$> List.filter (λ x, p (f x)) l.
Proof.
  induction l as [|x l IH]; [done|].
  rewrite fmap_cons. cbn [List.filter]. rewrite IH. by destruct (p (f x)).
Qed.

Lemma sort_insert_fmap {A B} (f : A → B) (cmp : A → A → Z) (cmp' : B → B → Z)
    (x : A) (l : list A) :
  (∀ a b, cmp' (f a) (f b) = cmp a b) →
  Js.sort_insert cmp' (f x) (f <$> l) = f <$> Js.sort_insert cmp x l.
Proof.
  intros Hcmp. induction l as [|y l IH]; [done|].
  rewrite fmap_cons. cbn [Js.sort_insert]. rewrite Hcmp, IH.
  by destruct (bool_decide (cmp x y ≤ 0)).
Qed.

Lemma sort_fmap {A B} (f : A → B) (cmp : A → A → Z) (cmp' : B → B → Z)
    (l : list A) :
  (∀ a b, cmp' (f a) (f b) = cmp a b) →
  Js.sort cmp' (f <$> l) = f <$> Js.sort cmp l.
Proof.
  intros Hcmp. induction l as [|x l IH]; [done|].
  rewrite fmap_cons. cbn [Js.sort foldr].
  change (foldr (Js.sort_insert cmp') [] (f <$> l)) with (Js.sort cmp' (f <$> l)).
  change (foldr (Js.sort_insert cmp) [] l) with (Js.sort cmp l).
  rewrite IH. by apply sort_insert_fmap.
Qed.

Lemma entries_numeric (obj : list (string * Z)) :
  Js.entries (numeric obj) = numeric (Js.entries obj).
Proof.
  unfold Js.entries, numeric. rewrite !list_filter_fmap, fmap_app. f_equal.
  by apply (sort_fmap (λ e : string * Z, (e.1, Js.Num e.2))
              (λ a b : string * Z,
                 Z.of_N (default 0%N (Js.array_index a.1))
                 - Z.of_N (default 0%N (Js.array_index b.1)))).
Qed.

(** For such names the ranking of [fetchAnalytics] is the ranking over
    the sums. *)
Lemma topProducts_numeric (items : list TransactionItem.t) :
  Forall (λ r, TransactionItem.product_name r ∉ Js.Object_prototype) items →
  Analytics.topProducts items = numeric (ranking items).
Proof.
  intros Hplain. unfold Analytics.topProducts, ranking.
  rewrite group_plus_numeric by done. rewrite entries_numeric.
  unfold numeric. rewrite fmap_take. f_equal.
  by apply (sort_fmap (λ e : string * Z, (e.1, Js.Num e.2))
              (λ a b : string * Z, b.2 - a.2)).
Qed.

(** The ranking before it is cut to ten. *)
Lemma ranking_sorted (items : list TransactionItem.t) :
  let group := Js.group_sum TransactionItem.product_name
                 TransactionItem.quantity items in
  let sorted := Js.sort (λ a b : string * Z, b.2 - a.2) (Js.entries group) in
  ranking items = take 10 sorted ∧
  sorted ≡ₚ group ∧
  StronglySorted (λ a b : string * Z, b.2 ≤ a.2) sorted.
Proof.
  cbn zeta. split; [done|]. split.
  - by rewrite sort_Permutation, entries_Permutation.
  - eapply StronglySorted_weaken;
      [|apply sort_sorted; [apply by_quantity_total|apply by_quantity_trans]].
    simpl. intros; lia.
Qed.

(** The first ten of the per-name sums in a descending order, whichever
    way rows of equal sums are ordered. *)
Lemma first_ten (items : list TransactionItem.t) (sorted : list (string * Z)) :
  sorted ≡ₚ Js.group_sum TransactionItem.product_name
               TransactionItem.quantity items →
  StronglySorted (λ a b : string * Z, b.2 ≤ a.2) sorted →
  let total n := sum_where TransactionItem.product_name
                   TransactionItem.quantity n items in
  let top := take 10 sorted in
  NoDup top.*1 ∧
  (∀ n q, (n, q) ∈ top →
     n ∈ TransactionItem.product_name <$> items ∧ q = total n) ∧
  StronglySorted (λ a b, b.2 ≤ a.2) top ∧
  length top
  = (length (remove_dups (TransactionItem.product_name <$> items)) `min` 10)%nat ∧
  (∀ n, n ∈ TransactionItem.product_name <$> items → n ∉ top.*1 →
     ∀ m q, (m, q) ∈ top → total n ≤ q).
Proof.
  intros Hperm Hsorted total top.
  assert (top `sublist_of` sorted) as Hsub by apply sublist_take.
  rewrite <- (take_drop 10 sorted) in Hsorted. fold top in Hsorted.
  apply StronglySorted_app in Hsorted as (Hcut & Hsorted & _).
  split; [|split; [|split; [|split]]].
  - eapply sublist_NoDup; [|by apply fmap_sublist].
    rewrite Hperm. apply group_sum_NoDup.
  - intros n q Hin. eapply elem_of_sublist in Hin; [|done].
    rewrite Hperm in Hin. by apply group_sum_elem in Hin.
  - done.
  - unfold top. rewrite length_take, Hperm.
    rewrite group_sum_length. apply Nat.min_comm.
  - intros n Hn Hout m q Hin.
    assert ((n, total n) ∈ sorted) as Hall
      by (rewrite Hperm; by apply group_sum_elem).
    rewrite <- (take_drop 10 sorted) in Hall. fold top in Hall.
    apply elem_of_app in Hall as [Hall|Hall].
    + destruct Hout. apply list_elem_of_fmap. by exists (n, total n).
    + apply (Hcut _ _ Hin Hall).
Qed.



End RankingFacts.

Section RankingInstances.
Import Fixture.



(** A product whose name is an array index is listed before the others,
    whenever it was met. *)
Lemma topProducts_index_name_first :
  Analytics.topProducts [sold 1 "Bakso" 5; sold 2 "7" 5]
  = [("7", Js.Num 5); ("Bakso", Js.Num 5)].
Proof. reflexivity. Qed.

End RankingInstances.

Section SalesFacts.

Import Analytics.

Lemma by_date_total (a b : Z * Z) : a.1 - b.1 ≤ 0 ∨ b.1 - a.1 ≤ 0.
Proof. lia. Qed.

Lemma by_date_trans (a b c : Z * Z) :
  a.1 - b.1 ≤ 0 → b.1 - c.1 ≤ 0 → a.1 - c.1 ≤ 0.
Proof. lia. Qed.

Lemma sorted_keys_strict (l : list (Z * Z)) :
  NoDup l.*1 →
  StronglySorted (λ a b : Z * Z, a.1 - b.1 ≤ 0) l →
  StronglySorted (λ a b : Z * Z, a.1 < b.1) l.
Proof.
  intros Hnd. induction 1 as [|x l Hs IH Hall]; [constructor|].
  rewrite fmap_cons in Hnd. apply NoDup_cons in Hnd as [Hfresh Hnd].
  constructor; [by apply IH|].
  rewrite Forall_forall in *. intros y Hy.
  specialize (Hall y Hy). simpl in Hall.
  assert (x.1 ≠ y.1); [|lia].
  intros Heq. apply Hfresh. rewrite Heq. apply list_elem_of_fmap. by exists y.
Qed.

(** The daily series of [fetchAnalytics]: one entry per day on which
    something was sold, with the day's sum, in ascending order of the
    days, cut to the thirty most recent days. *)
Lemma salesData_series (sales : list Transaction.t) :
  let series := Analytics.salesData sales in
  StronglySorted (λ a b, a.1 < b.1) series ∧
  (∀ d t, (d, t) ∈ series →
     d ∈ date <$> sales ∧ t = sum_where date amount d sales) ∧
  length series = (length (remove_dups (date <$> sales)) `min` 30)%nat ∧
  (∀ d, d ∈ date <$> sales → d ∉ series.*1 →
     ∀ d' t, (d', t) ∈ series → d < d').
Proof.
  intros series.
  set (group := Js.group_sum date amount sales).
  set (sorted := Js.sort (λ a b : Z * Z, a.1 - b.1) group).
  set (n := (length sorted - 30)%nat).
  assert (series = drop n sorted) as Hseries by done.
  assert (sorted ≡ₚ group) as Hperm by apply sort_Permutation.
  assert (NoDup sorted.*1) as Hnd
    by (rewrite Hperm; apply group_sum_NoDup).
  assert (StronglySorted (λ a b : Z * Z, a.1 < b.1) sorted) as Hsorted.
  { apply sorted_keys_strict; [done|].
    apply sort_sorted; [apply by_date_total|apply by_date_trans]. }
  rewrite <- (take_drop n sorted), <- Hseries in Hsorted.
  apply StronglySorted_app in Hsorted as (Hcut & _ & Hsorted).
  assert (series `sublist_of` sorted) as Hsub
    by (rewrite Hseries; apply sublist_drop).
  split; [done|]. split; [|split].
  - intros d t Hin. eapply elem_of_sublist in Hin; [|done].
    rewrite Hperm in Hin. by apply group_sum_elem in Hin.
  - rewrite Hseries, length_drop. unfold n.
    assert (length sorted = length (remove_dups (date <$> sales))) as ->; [|lia].
    rewrite <- (length_fmap fst sorted), Hperm.
    apply Permutation_length.
    apply NoDup_Permutation;
      [apply group_sum_NoDup|apply NoDup_remove_dups|].
    intros d. rewrite elem_of_remove_dups. apply group_sum_keys.
  - intros d Hd Hout d' t Hin.
    assert ((d, sum_where date amount d sales) ∈ sorted) as Hsome
      by (rewrite Hperm; by apply group_sum_elem).
    rewrite <- (take_drop n sorted), <- Hseries in Hsome.
    apply elem_of_app in Hsome as [Hsome|Hsome].
    + apply (Hcut _ _ Hsome Hin).
    + destruct Hout. apply list_elem_of_fmap. by eexists (d, _).
Qed.

(** The route of the earlier server makes the same groups in the same
    order and keeps the first thirty: a day it leaves out is more recent
    than every day it returns. *)
Lemma server_sales_series (db : Store) :
  let series := Analytics.server_sales db in
  StronglySorted (λ a b, a.1 < b.1) series ∧
  (∀ d t, (d, t) ∈ series →
     d ∈ date <$> transactions db ∧
     t = sum_where date amount d (transactions db)) ∧
  (∀ d, d ∈ date <$> transactions db → d ∉ series.*1 →
     ∀ d' t, (d', t) ∈ series → d' < d).
Proof.
  intros series.
  set (group := Js.group_sum date amount (transactions db)).
  set (sorted := Js.sort (λ a b : Z * Z, a.1 - b.1) group).
  assert (series = take 30 sorted) as Hseries by done.
  assert (sorted ≡ₚ group) as Hperm by apply sort_Permutation.
  assert (StronglySorted (λ a b : Z * Z, a.1 < b.1) sorted) as Hsorted.
  { apply sorted_keys_strict; [rewrite Hperm; apply group_sum_NoDup|].
    apply sort_sorted; [apply by_date_total|apply by_date_trans]. }
  rewrite <- (take_drop 30 sorted), <- Hseries in Hsorted.
  apply StronglySorted_app in Hsorted as (Hcut & Hsorted & _).
  split; [done|]. split.
  - intros d t Hin. rewrite Hseries in Hin.
    eapply elem_of_sublist in Hin; [|apply sublist_take].
    rewrite Hperm in Hin. by apply group_sum_elem in Hin.
  - intros d Hd Hout d' t Hin.
    assert ((d, sum_where date amount d (transactions db)) ∈ sorted) as Hsome
      by (rewrite Hperm; by apply group_sum_elem).
    rewrite <- (take_drop 30 sorted), <- Hseries in Hsome.
    apply elem_of_app in Hsome as [Hsome|Hsome].
    + destruct Hout. apply list_elem_of_fmap. by eexists (d, _).
    + apply (Hcut _ _ Hin Hsome).
Qed.

(** C9, at the input where the route of the earlier server fails: with a
    sale on each of the days 0 to 30, [GET /api/analytics/sales] returns
    the days 0 to 29 and leaves the most recent day out, where
    [fetchAnalytics] keeps the days 1 to 30. *)
Theorem server_sales_keeps_the_oldest :
  let history := (λ day, Fixture.sale day 20000) <$> seqZ 0 31 in
  let db := {| products := ∅; transactions := history;
               transaction_items := []; next_id := 32; now := 0 |} in
  (Analytics.server_sales db).*1 = seqZ 0 30 ∧
  (30 ∉ (Analytics.server_sales db).*1) ∧
  (Analytics.salesData history).*1 = seqZ 1 30.
Proof.
  assert ((Analytics.server_sales
             {| products := ∅;
                transactions := (λ day, Fixture.sale day 20000) <$> seqZ 0 31;
                transaction_items := []; next_id := 32; now := 0 |}).*1
          = seqZ 0 30) as Hserver by (vm_compute; reflexivity).
  cbn zeta. rewrite Hserver. split; [done|]. split.
  - apply (bool_decide_unpack _). vm_compute. exact I.
  - vm_compute. reflexivity.
Qed.

End SalesFacts.

(** * Further properties *)

(** ** Carts that the handlers can build *)

Section CartInvariants.
Import Cart.

Lemma addToCart_ids (p : Product) (prev : list CartItem) :
  (λ item : CartItem, id item) <$> addToCart p prev
  = ((λ item : CartItem, id item) <$> prev)
    ++ (if decide (available p ∧ id p ∉ (λ item : CartItem, id item) <$> prev)
        then [id p] else []).
Proof.
  unfold addToCart.
  destruct (decide (available p)) as [Hav|Hno].
  - rewrite addToCart_guard by done.
    destruct (find _ prev) as [found|] eqn:Hfind.
    + apply find_some in Hfind as [Hin Hid].
      apply bool_decide_eq_true_1 in Hid. apply list_elem_of_In in Hin.
      rewrite decide_False.
      * rewrite app_nil_r. rewrite <- list_fmap_compose.
        apply list_fmap_ext. intros i item _. simpl. by case_bool_decide.
      * intros [_ Hout]. apply Hout. rewrite <- Hid.
        apply list_elem_of_fmap. by exists found.
    + rewrite decide_True.
      * by rewrite fmap_app.
      * split; [done|]. intros Hin.
        apply list_elem_of_fmap in Hin as (item & Hid & Hin).
        apply list_elem_of_In in Hin. eapply find_none in Hfind; [|done].
        apply bool_decide_eq_false_1 in Hfind. congruence.
  - rewrite decide_False by tauto. rewrite app_nil_r.
    unfold available in Hno.
    rewrite !bool_decide_eq_true_2 by lia. done.
Qed.

Lemma updateQuantity_ids (productId delta : Z) (prev : list CartItem) :
  (λ item : CartItem, id item) <$> updateQuantity productId delta prev
  = (λ item : CartItem, id item) <$> prev.
Proof.
  unfold updateQuantity. rewrite <- list_fmap_compose.
  apply list_fmap_ext. intros i item _. simpl.
  repeat case_bool_decide; done.
Qed.

Lemma removeFromCart_filter (productId : Z) (prev : list CartItem) :
  removeFromCart productId prev
  = filter (λ item : CartItem, id item ≠ productId) prev.
Proof.
  unfold removeFromCart. induction prev as [|item prev IH]; simpl; [done|].
  rewrite filter_cons, IH. case_bool_decide; by case_decide.
Qed.

Lemma apply_ids_NoDup (cart : list CartItem) (op : Op) :
  NoDup ((λ item : CartItem, id item) <$> cart) →
  NoDup ((λ item : CartItem, id item) <$> apply cart op).
Proof.
  intros Hnd. destruct op as [p|productId delta|productId]; simpl.
  - rewrite addToCart_ids. case_decide as Hnew; [|by rewrite app_nil_r].
    apply NoDup_app. split; [done|]. split; [|apply NoDup_singleton].
    intros x Hx Hx'. apply list_elem_of_singleton in Hx'. subst.
    by destruct Hnew.
  - by rewrite updateQuantity_ids.
  - rewrite removeFromCart_filter.
    eapply sublist_NoDup; [exact Hnd|].
    apply fmap_sublist, sublist_filter.
Qed.

Lemma apply_lines_sound (cart : list CartItem) (op : Op) :
  Forall (λ item : CartItem, 1 ≤ quantity item ∧ available item) cart →
  Forall (λ item : CartItem, 1 ≤ quantity item ∧ available item) (apply cart op).
Proof.
  intros Hall. destruct op as [p|productId delta|productId]; simpl.
  - unfold addToCart.
    destruct (bool_decide (stock p ≠ -1) && bool_decide (stock p ≤ 0)) eqn:Hguard;
      [done|].
    destruct (find _ cart) as [found|].
    + apply Forall_fmap. eapply Forall_impl; [exact Hall|].
      intros item [Hq Hav]. simpl.
      destruct (bool_decide (id item = id p)); simpl; [|by split].
      split; [lia|done].
    + apply Forall_app. split; [done|]. apply Forall_singleton. simpl.
      split; [lia|]. unfold available.
      apply andb_false_iff in Hguard as [Hg|Hg];
        apply bool_decide_eq_false_1 in Hg; lia.
  - unfold updateQuantity. apply Forall_fmap.
    eapply Forall_impl; [exact Hall|].
    intros item [Hq Hav]. simpl.
    repeat case_bool_decide; simpl; (split; [lia|done]).
  - rewrite removeFromCart_filter.
    rewrite Forall_forall in *. intros item Hin. apply Hall.
    eapply elem_of_sublist; [exact Hin|apply sublist_filter].
Qed.

(** X1. Whatever is done to the cart from the empty cart on, no two lines
    are of the same product. *)
Theorem run_ids_distinct (ops : list Op) :
  NoDup ((λ item : CartItem, id item) <$> run ops).
Proof.
  unfold run.
  assert (∀ cart, NoDup ((λ item : CartItem, id item) <$> cart) →
                  NoDup ((λ item : CartItem, id item) <$> fold_left apply ops cart))
    as Hgen.
  { induction ops as [|op ops IH]; intros cart Hnd; simpl; [done|].
    by apply IH, apply_ids_NoDup. }
  apply Hgen. constructor.
Qed.

(** X2. Whatever is done to the cart from the empty cart on, every line has
    a quantity of at least 1, and the stock its product had when the line
    was made is [-1] or positive: a line is never made of a product out of
    stock, and no handler brings a quantity to 0. *)
Theorem run_lines_sound (ops : list Op) :
  Forall (λ item : CartItem, 1 ≤ quantity item ∧ available item) (run ops).
Proof.
  unfold run.
  assert (∀ cart,
            Forall (λ item : CartItem, 1 ≤ quantity item ∧ available item) cart →
            Forall (λ item : CartItem, 1 ≤ quantity item ∧ available item)
                   (fold_left apply ops cart)) as Hgen.
  { induction ops as [|op ops IH]; intros cart Hall; simpl; [done|].
    by apply IH, apply_lines_sound. }
  apply Hgen. constructor.
Qed.

End CartInvariants.

Section CartTotals.
Import Cart.

Lemma cartTotal_app (l1 l2 : list CartItem) :
  cartTotal (l1 ++ l2) = cartTotal l1 + cartTotal l2.
Proof.
  unfold cartTotal at 1. rewrite fold_left_app.
  fold (cartTotal l1). apply cartTotal_from.
Qed.

Lemma find_id_absent (productId : Z) (cart : list CartItem) :
  productId ∉ (λ item : CartItem, id item) <$> cart →
  find (λ item : CartItem, bool_decide (id item = productId)) cart = None.
Proof.
  intros Hout.
  destruct (find _ cart) as [found|] eqn:Hfind; [|done].
  apply find_some in Hfind as [Hin Hid].
  apply bool_decide_eq_true_1 in Hid. apply list_elem_of_In in Hin.
  destruct Hout. rewrite <- Hid. apply list_elem_of_fmap. by exists found.
Qed.

Lemma increment_total (productId : Z) (cart : list CartItem) :
  NoDup ((λ item : CartItem, id item) <$> cart) →
  cartTotal (map (λ item : CartItem,
                    if bool_decide (id item = productId)
                    then with_quantity item (quantity item + 1)
                    else item) cart)
  = cartTotal cart
    + match find (λ item : CartItem, bool_decide (id item = productId)) cart with
      | Some line => price line
      | None => 0
      end.
Proof.
  induction cart as [|item cart IH]; intros Hnd; [done|].
  rewrite fmap_cons in Hnd. apply NoDup_cons in Hnd as [Hfresh Hnd].
  cbn [map find]. rewrite !cartTotal_cons, IH by done.
  case_bool_decide as Hid.
  - subst productId. rewrite find_id_absent by done. simpl. lia.
  - lia.
Qed.

(** X3. [addToCart] of a product that can be added raises the cart total
    by one unit price: the price the line was made with when the product
    has a line, the price of the product handed in when it has none. *)
Theorem addToCart_total (p : Product) (cart : list CartItem) :
  available p →
  NoDup ((λ item : CartItem, id item) <$> cart) →
  cartTotal (addToCart p cart)
  = cartTotal cart
    + match find (λ item : CartItem, bool_decide (id item = id p)) cart with
      | Some line => price line
      | None => price p
      end.
Proof.
  intros Hav Hnd. unfold addToCart. rewrite addToCart_guard by done.
  destruct (find _ cart) as [line|] eqn:Hfind.
  - rewrite increment_total by done. by rewrite Hfind.
  - rewrite cartTotal_app, cartTotal_cons. unfold cartTotal at 2. simpl. lia.
Qed.

Lemma filter_keeps_all {A} (P : A → Prop) `{∀ x, Decision (P x)} (l : list A) :
  Forall P l → filter P l = l.
Proof.
  induction 1 as [|x l Hx _ IH]; [done|].
  by rewrite filter_cons, decide_True, IH.
Qed.

(** X4. [removeFromCart] of the product of a line takes that line out and
    nothing else, and the cart total falls by what the line came to. *)
Theorem removeFromCart_line (cart : list CartItem) (i : nat) (item : CartItem) :
  NoDup ((λ item : CartItem, id item) <$> cart) →
  cart !! i = Some item →
  removeFromCart (id item) cart = delete i cart ∧
  cartTotal (removeFromCart (id item) cart)
  = cartTotal cart - price item * quantity item.
Proof.
  intros Hnd Hi.
  assert (removeFromCart (id item) cart = delete i cart) as Hdel.
  { rewrite removeFromCart_filter. revert i Hi Hnd.
    induction cart as [|first cart IH]; intros i Hi Hnd; [done|].
    rewrite fmap_cons in Hnd. apply NoDup_cons in Hnd as [Hfresh Hnd].
    rewrite filter_cons. destruct i as [|i]; simpl in Hi.
    - injection Hi as ->. rewrite decide_False by (intros Hne; by apply Hne).
      simpl. apply filter_keeps_all, Forall_forall. intros other Hin Heq.
      apply Hfresh. rewrite <- Heq. apply list_elem_of_fmap. by exists other.
    - rewrite decide_True.
      + simpl. f_equal. by apply IH.
      + intros Heq. apply Hfresh. rewrite Heq.
        apply list_elem_of_fmap. exists item. split; [done|].
        by eapply list_elem_of_lookup_2. }
  split; [done|]. rewrite Hdel, delete_take_drop.
  rewrite <- (take_drop_middle cart i item Hi) at 3.
  rewrite !cartTotal_app, cartTotal_cons. lia.
Qed.

(** X5. One more and then one less leaves the cart as it was, provided the
    lines of the product hold a quantity of at least 1 and have room under
    their ceiling. *)
Theorem updateQuantity_up_then_down (productId : Z) (cart : list CartItem) :
  Forall (λ item : CartItem,
            id item = productId →
            1 ≤ quantity item ∧ (stock item = -1 ∨ quantity item < stock item))
         cart →
  updateQuantity productId (-1) (updateQuantity productId 1 cart) = cart.
Proof.
  intros Hroom. unfold updateQuantity. rewrite map_map.
  rewrite <- (map_id cart) at 2. apply map_ext_Forall.
  eapply Forall_impl; [exact Hroom|]. intros [p q] Hline. simpl in *.
  destruct (decide (id p = productId)) as [Hid|Hid].
  - destruct (Hline Hid) as [Hq Hceil].
    rewrite (bool_decide_eq_true_2 _ Hid). simpl.
    assert (bool_decide (stock p ≠ -1)
            && bool_decide (Z.max 1 (q + 1) > stock p) = false) as ->.
    { apply andb_false_iff. destruct Hceil as [Hunl|Hlt].
      - left. apply bool_decide_eq_false_2. tauto.
      - right. apply bool_decide_eq_false_2. lia. }
    simpl. rewrite (bool_decide_eq_true_2 _ Hid). simpl.
    unfold with_quantity. simpl. f_equal. lia.
  - by rewrite !(bool_decide_eq_false_2 _ Hid).
Qed.

(** X6. Taking a product out of the cart and adding it again gives a line
    with quantity 1 and the product as it is now, at the end of the cart:
    this is how the snapshot of a line gets renewed. *)
Theorem remove_then_add (p : Product) (cart : list CartItem) :
  available p →
  addToCart p (removeFromCart (id p) cart)
  = removeFromCart (id p) cart ++ [ {| product := p; quantity := 1 |} ].
Proof.
  intros Hav. apply addToCart_new; [done|].
  rewrite removeFromCart_filter. apply Forall_forall. intros item Hin.
  by apply list_elem_of_filter in Hin as [Hne _].
Qed.

End CartTotals.

(** ** Every way through [handleCheckout] *)

Section CheckoutOutcomes.
Variable faults : nat → option string.

Lemma valid_or_not (a : AppState) :
  valid a ∨
  (cart a = [] ∨ blank (customerName a) = true ∨
   (paymentMethod a = "Cash" ∧
    JsNumber.lt (paid a) (Cart.cartTotal (cart a)))).
Proof.
  unfold valid, JsNumber.lt.
  destruct (decide (cart a = [])) as [Hc|Hc]; [by right; left|].
  destruct (blank (customerName a)) eqn:Hb; [by right; right; left|].
  destruct (decide (paymentMethod a = "Cash")) as [Hm|Hm]; [|left; tauto].
  destruct (JsNumber.ltb (paid a) (Cart.cartTotal (cart a))) eqn:Hlt;
    [by right; right; right|].
  left. repeat split; [done|]. by intros [_ ?].
Qed.

Lemma handleCheckout_rejected (w : World) :
  cart (app w) = [] ∨ blank (customerName (app w)) = true ∨
  (paymentMethod (app w) = "Cash" ∧
   JsNumber.lt (paid (app w)) (Cart.cartTotal (cart (app w)))) →
  ∃ (e : Exit) (alerts : list UiEvent),
    handleCheckout faults w
    = (Ok e, {| app := app w; store := store w; calls := calls w;
                ui := ui w ++ alerts |}).
Proof.
  intros Hfail. unfold handleCheckout, mbind, M_bind, get_app. simpl.
  destruct (decide (cart (app w) = [])) as [Hcart|Hcart].
  { rewrite bool_decide_eq_true_2 by (by rewrite Hcart).
    exists EmptyCart, []. unfold mret, M_ret. rewrite app_nil_r. by destruct w. }
  rewrite bool_decide_eq_false_2 by (by destruct (cart (app w))).
  destruct (blank (customerName (app w))) eqn:Hblank.
  { by eexists _, [_]. }
  destruct Hfail as [Hempty|[Hname|[Hcash Hshort]]]; [done|done|].
  fold (paid (app w)).
  unfold JsNumber.lt in Hshort.
  rewrite (bool_decide_eq_true_2 _ Hcash), Hshort.
  by eexists _, [_].
Qed.

(** The four ways [handleCheckout] can leave the form and the store. *)
Lemma handleCheckout_outcomes (w : World) :
  let w' := (handleCheckout faults w).2 in
  let tx := InsertTransaction (transaction_values (app w)) in
  let rows := InsertTransactionItems
                (map (item_row (next_id (store w))) (cart (app w))) in
  (app w' = app w ∧ store w' = store w ∧ calls w' = calls w) ∨
  (valid (app w) ∧ app w' = with_isProcessing false (app w) ∧
   store w' = store w) ∨
  (valid (app w) ∧ app w' = with_isProcessing false (app w) ∧
   store w' = (exec tx (store w)).1) ∨
  (valid (app w) ∧ app w' = fresh_form ∧
   store w' = replay ([(tx, None); (rows, None)]
                      ++ stock_calls faults (S (S (length (calls w)))) (cart (app w)))
                     (store w)).
Proof.
  cbn zeta. destruct (valid_or_not (app w)) as [Hvalid|Hfail].
  - destruct (faults (length (calls w))) as [e|] eqn:Hf1.
    { right. left. by rewrite (handleCheckout_step1_fails _ _ e). }
    destruct (faults (S (length (calls w)))) as [e|] eqn:Hf2.
    { right. right. left. by rewrite (handleCheckout_step2_fails _ _ e). }
    right. right. right. by rewrite handleCheckout_completed.
  - left. destruct (handleCheckout_rejected w Hfail) as (e & alerts & ->). done.
Qed.

(** X7. [handleCheckout] never leaves the form in the processing state:
    started from a form that is not processing, it ends with one that is
    not, through every exit and whatever the store calls do. *)
Theorem handleCheckout_stops_processing (w : World) :
  isProcessing (app w) = false →
  isProcessing (app (handleCheckout faults w).2) = false.
Proof.
  intros Hidle.
  destruct (handleCheckout_outcomes w)
    as [(-> & _)|[(_ & -> & _)|[(_ & -> & _)|(_ & -> & _)]]]; done.
Qed.

Lemma referential_insert (v : Transaction.Values) (s : Store) :
  referential s → referential (exec (InsertTransaction v) s).1.
Proof.
  intros (Hids & Hnd & Hrows). simpl. repeat split; simpl.
  - apply Forall_app. split.
    + eapply Forall_impl; [exact Hids|]. simpl. intros; lia.
    + apply Forall_singleton. simpl. lia.
  - rewrite fmap_app. apply NoDup_app. split; [done|].
    split; [|apply NoDup_singleton].
    intros x Hx Hx'. apply list_elem_of_singleton in Hx'. subst x.
    apply list_elem_of_fmap in Hx as (t & Heq & Ht).
    rewrite Forall_forall in Hids. specialize (Hids t Ht). simpl in *. lia.
  - eapply Forall_impl; [exact Hrows|]. simpl. intros row (t & Ht & Heq).
    exists t. split; [|done]. apply elem_of_app. by left.
Qed.

Lemma referential_items (rows : list TransactionItem.t) (s : Store) :
  referential s →
  Forall (λ row, ∃ t, t ∈ transactions s ∧
                      Transaction.id t = TransactionItem.transaction_id row) rows →
  referential (exec (InsertTransactionItems rows) s).1.
Proof.
  intros (Hids & Hnd & Hrows) Hnew. repeat split; simpl; [done|done|].
  by apply Forall_app.
Qed.

Lemma referential_tables (s s' : Store) :
  transactions s' = transactions s →
  transaction_items s' = transaction_items s →
  next_id s' = next_id s →
  referential s → referential s'.
Proof. unfold referential. by intros -> -> ->. Qed.

(** X8. [handleCheckout] keeps the tables of the store in agreement: if
    transaction ids are distinct and below the next id, and every item row
    names a transaction of the table, then the same holds afterwards,
    through every exit and whatever the store calls do. *)
Theorem handleCheckout_keeps_referential (w : World) :
  referential (store w) →
  referential (store (handleCheckout faults w).2).
Proof.
  intros Href.
  destruct (handleCheckout_outcomes w)
    as [(_ & -> & _)|[(_ & _ & ->)|[(_ & _ & ->)|(_ & _ & ->)]]];
    [done|done|by apply referential_insert|].
  rewrite replay_app.
  match goal with |- context [replay (stock_calls _ ?n ?l) ?s2] =>
    destruct (replay_stock_calls_tables faults l n s2) as (Ht & Hi & Hn & _)
  end.
  eapply referential_tables; [exact Ht|exact Hi|exact Hn|].
  rewrite !replay_cons. cbn [fst snd replay fold_left].
  apply referential_items; [by apply referential_insert|].
  apply Forall_forall. intros row Hrow.
  apply list_elem_of_fmap in Hrow as (item & -> & _).
  exists {| Transaction.id := next_id (store w);
            Transaction.values := transaction_values (app w);
            Transaction.timestamp := now (store w) |}.
  split; [|reflexivity].
  simpl. apply elem_of_app. right. left.
Qed.

Lemma replay_stock_calls_rows (lines : list CartItem) (n : nat) (s : Store)
    (productId : Z) :
  without_stock <$> products (replay (stock_calls faults n lines) s) !! productId
  = without_stock <$> products s !! productId.
Proof.
  revert n s. induction lines as [|item lines IH]; intros n s; simpl; [done|].
  case_bool_decide; [|apply IH].
  rewrite replay_cons. cbn [fst snd]. rewrite IH.
  destruct (faults n); [done|]. simpl.
  destruct (decide (id item = productId)) as [->|Hne].
  - rewrite lookup_alter_eq. by destruct (products s !! productId).
  - by rewrite lookup_alter_ne.
Qed.

(** X9. [handleCheckout] changes nothing of the products but their stock:
    it adds no product, removes none (a line whose product is gone from
    the store updates nothing), and leaves name, category, price and
    picture of every product as they were. *)
Theorem handleCheckout_touches_stock_only (w : World) (productId : Z) :
  without_stock <$> products (store (handleCheckout faults w).2) !! productId
  = without_stock <$> products (store w) !! productId.
Proof.
  destruct (handleCheckout_outcomes w)
    as [(_ & -> & _)|[(_ & _ & ->)|[(_ & _ & ->)|(_ & _ & ->)]]];
    [done|done|done|].
  rewrite replay_app, replay_stock_calls_rows. done.
Qed.

End CheckoutOutcomes.

Section PaymentFacts.
Variable faults : nat → option string.

(** Once step 1 has gone through, the row it wrote is in the table,
    whatever comes after. *)
Lemma handleCheckout_records (w : World) :
  valid (app w) →
  faults (length (calls w)) = None →
  transactions (store (handleCheckout faults w).2)
  = transactions (store w)
    ++ [ {| Transaction.id := next_id (store w);
            Transaction.values := transaction_values (app w);
            Transaction.timestamp := now (store w) |} ].
Proof.
  intros Hvalid Hf1.
  destruct (faults (S (length (calls w)))) as [e|] eqn:Hf2.
  - by rewrite (handleCheckout_step2_fails _ _ e).
  - rewrite handleCheckout_completed by done. cbn [snd store].
    match goal with |- context [replay (_ ++ stock_calls _ ?n ?l) ?s] =>
      destruct (replay_commit faults (transaction_values (app w))
                  (map (item_row (next_id (store w))) (cart (app w))) l n s)
        as (Ht & _ & _)
    end.
    exact Ht.
Qed.

(** X10. Only cash is checked against the total. With any other payment
    method the checkout goes ahead whatever the amount field holds, and the
    transaction records that amount as paid, be it less than the total,
    with the change [max 0 (amount - total)]. *)
Theorem only_cash_is_checked (w : World) (amount : Z) :
  cart (app w) ≠ [] →
  blank (customerName (app w)) = false →
  paymentMethod (app w) ≠ "Cash" →
  amountPaid (app w) = Some (JsNumber.Int amount) →
  faults (length (calls w)) = None →
  ∃ row : Transaction.t,
    transactions (store (handleCheckout faults w).2)
    = transactions (store w) ++ [row] ∧
    Transaction.total_amount row = Cart.cartTotal (cart (app w)) ∧
    Transaction.amount_paid row = amount ∧
    Transaction.change_amount row
    = Z.max 0 (amount - Cart.cartTotal (cart (app w))).
Proof.
  intros Hcart Hname Hmethod Hamount Hf1.
  assert (valid (app w)) as Hvalid by (repeat split; tauto).
  eexists. split; [by apply handleCheckout_records|].
  simpl. unfold paid. rewrite Hamount. done.
Qed.

(** X11. For a cart whose total is not negative, the change the form shows
    next to the amount field is the change the transaction records. *)
Theorem shown_change_is_recorded (w : World) :
  valid (app w) →
  0 ≤ Cart.cartTotal (cart (app w)) →
  faults (length (calls w)) = None →
  ∃ row : Transaction.t,
    transactions (store (handleCheckout faults w).2)
    = transactions (store w) ++ [row] ∧
    Transaction.change_amount row = shownChange (app w).
Proof.
  intros Hvalid Htotal Hf1.
  eexists. split; [by apply handleCheckout_records|].
  simpl. unfold paid, shownChange.
  destruct (amountPaid (app w)) as [[n|]|]; cbn [JsNumber.sub JsNumber.max];
    try done.
  f_equal. lia.
Qed.

(** X12. Choosing a payment method other than cash and checking out right
    away records the cart total as the amount paid, with no change, under
    the method chosen. *)
Theorem select_then_checkout (w : World) (method : string) :
  method ≠ "Cash" →
  cart (app w) ≠ [] →
  blank (customerName (app w)) = false →
  faults (length (calls w)) = None →
  ∃ row : Transaction.t,
    transactions
      (store ((selectPaymentMethod method;; handleCheckout faults) w).2)
    = transactions (store w) ++ [row] ∧
    Transaction.payment_method row = method ∧
    Transaction.amount_paid row = Cart.cartTotal (cart (app w)) ∧
    Transaction.change_amount row = 0.
Proof.
  intros Hmethod Hcart Hname Hf1.
  unfold mbind, M_bind, selectPaymentMethod, get_app. simpl.
  rewrite (bool_decide_eq_true_2 _ Hmethod).
  unfold setPaymentMethod, setAmountPaid, set_app. simpl.
  match goal with |- context [handleCheckout faults ?w1] => set (w1' := w1) end.
  assert (valid (app w1')) as Hvalid.
  { repeat split; [done|done|]. simpl. tauto. }
  eexists. split; [by apply (handleCheckout_records w1')|].
  simpl. unfold paid. simpl. repeat split. f_equal. lia.
Qed.

(** X28. A [NaN] in the amount field is not a short payment: [NaN < total]
    is false, so that the checkout goes ahead under every payment method,
    cash included, and the transaction it inserts carries [NaN] as the
    amount paid and as the change. *)
Theorem NaN_amount_is_not_short (w : World) :
  cart (app w) ≠ [] →
  blank (customerName (app w)) = false →
  amountPaid (app w) = Some JsNumber.NaN →
  faults (length (calls w)) = None →
  ∃ row : Transaction.t,
    transactions (store (handleCheckout faults w).2)
    = transactions (store w) ++ [row] ∧
    Transaction.total_amount row = Cart.cartTotal (cart (app w)) ∧
    Transaction.amount_paid row = JsNumber.NaN ∧
    Transaction.change_amount row = JsNumber.NaN ∧
    Transaction.payment_method row = paymentMethod (app w).
Proof.
  intros Hcart Hname Hamount Hf1.
  assert (valid (app w)) as Hvalid.
  { repeat split; [done|done|]. unfold JsNumber.lt, paid. rewrite Hamount.
    by intros [_ ?]. }
  eexists. split; [by apply handleCheckout_records|].
  simpl. unfold paid. rewrite Hamount. done.
Qed.

End PaymentFacts.

(** ** [POST /api/transactions] of the earlier server *)

Section ServerFacts.

(** One round of the loop of the route. *)
Lemma server_loop_tables (transactionId : Z) (items : list CartItem) (db : Store) :
  let db' :=
    fold_left
      (λ db (item : CartItem),
         Server.updateStock (quantity item) (id item)
           (Server.insertItem (item_row transactionId item) db))
      items db in
  transactions db' = transactions db ∧
  transaction_items db'
  = transaction_items db ++ map (item_row transactionId) items ∧
  next_id db' = next_id db.
Proof.
  revert db. induction items as [|item items IH]; intros db; simpl.
  - by rewrite app_nil_r.
  - destruct (IH (Server.updateStock (quantity item) (id item)
                    (Server.insertItem (item_row transactionId item) db)))
      as (-> & -> & ->).
    simpl. by rewrite <- app_assoc.
Qed.

(** X13. The route adds one transaction, numbered with the id it returns,
    and one item row for each item of the body, in their order and all
    naming that transaction; a store whose tables agree keeps them in
    agreement. *)
Theorem server_transaction_rows (body : Server.Body) (db : Store) :
  let db' := (Server.transaction body db).1 in
  let transactionId := (Server.transaction body db).2 in
  transactionId = next_id db ∧
  transactions db'
  = transactions db
    ++ [ {| Transaction.id := transactionId;
            Transaction.values := Server.fields body;
            Transaction.timestamp := now db |} ] ∧
  transaction_items db'
  = transaction_items db ++ map (item_row transactionId) (Server.items body) ∧
  (referential db → referential db').
Proof.
  unfold Server.transaction. simpl.
  match goal with |- context [fold_left ?f ?items ?db1] =>
    destruct (server_loop_tables (next_id db) items db1) as (Ht & Hi & Hn)
  end.
  cbn zeta in Ht, Hi, Hn. unfold item_row in *.
  split; [done|]. split; [exact Ht|]. split; [exact Hi|].
  intros Href.
  pose proof (referential_insert (Server.fields body) db Href) as Href1.
  destruct Href1 as (Hids & Hnd & Hrows). simpl in *.
  unfold referential. rewrite Ht, Hi, Hn. simpl. repeat split; [done|done|].
  apply Forall_app. split; [done|].
  apply Forall_forall. intros row Hrow.
  apply list_elem_of_fmap in Hrow as (item & -> & _).
  exists {| Transaction.id := next_id db;
            Transaction.values := Server.fields body;
            Transaction.timestamp := now db |}.
  split; [|reflexivity]. apply elem_of_app. right. left.
Qed.

Lemma asked_nonneg (productId : Z) (items : list CartItem) :
  Forall (λ item : CartItem, 0 ≤ quantity item) items →
  0 ≤ asked productId items.
Proof.
  unfold asked, sum_where. induction 1 as [|item items Hq _ IH]; simpl; [done|].
  case_decide; lia.
Qed.

Lemma server_loop_stock (transactionId : Z) (items : list CartItem) (db : Store)
    (productId : Z) (p : Product) :
  products db !! productId = Some p →
  Forall (λ item : CartItem, 0 ≤ quantity item) items →
  asked productId items ≤ stock p →
  products
    (fold_left
       (λ db (item : CartItem),
          Server.updateStock (quantity item) (id item)
            (Server.insertItem (item_row transactionId item) db))
       items db) !! productId
  = Some (with_stock p (stock p - asked productId items)).
Proof.
  revert db p. induction items as [|item items IH]; intros db p Hp Hq Hstock.
  - simpl. rewrite Hp. f_equal. unfold asked, sum_where. simpl.
    destruct p. unfold with_stock. simpl. f_equal. lia.
  - apply Forall_cons in Hq as [Hq Hqs].
    pose proof (asked_nonneg productId items Hqs) as Hrest.
    assert (asked productId (item :: items)
            = (if decide (id item = productId) then quantity item else 0)
              + asked productId items) as Hsum by done.
    rewrite Hsum in *. cbn [fold_left].
    destruct (decide (id item = productId)) as [Hid|Hid].
    + assert (products (Server.updateStock (quantity item) (id item)
                (Server.insertItem (item_row transactionId item) db)) !! productId
              = Some (with_stock p (stock p - quantity item))) as Hlook.
      { simpl. rewrite Hid, lookup_alter_eq, Hp. simpl.
        by rewrite bool_decide_eq_true_2 by lia. }
      assert (asked productId items ≤ stock (with_stock p (stock p - quantity item)))
        as Hleft by (simpl; lia).
      rewrite (IH _ _ Hlook Hqs Hleft).
      f_equal. unfold with_stock. simpl. f_equal. lia.
    + assert (products (Server.updateStock (quantity item) (id item)
                (Server.insertItem (item_row transactionId item) db)) !! productId
              = Some p) as Hlook.
      { simpl. by rewrite lookup_alter_ne. }
      assert (asked productId items ≤ stock p) as Hleft by lia.
      by rewrite (IH _ _ Hlook Hqs Hleft).
Qed.

(** X14. When a product has as much stock as the items of the body ask of
    it altogether, the route leaves it with its stock less that sum,
    whether the product is asked for in one item or in several. *)
Theorem server_transaction_stock (body : Server.Body) (db : Store)
    (productId : Z) (p : Product) :
  products db !! productId = Some p →
  Forall (λ item : CartItem, 0 ≤ quantity item) (Server.items body) →
  asked productId (Server.items body) ≤ stock p →
  products (Server.transaction body db).1 !! productId
  = Some (with_stock p (stock p - asked productId (Server.items body))).
Proof.
  intros Hp Hq Hstock. unfold Server.transaction. simpl.
  by apply (server_loop_stock (next_id db)).
Qed.

Lemma server_loop_frozen (transactionId : Z) (items : list CartItem) (db : Store)
    (productId : Z) (p : Product) :
  products db !! productId = Some p →
  stock p ≤ -1 →
  products
    (fold_left
       (λ db (item : CartItem),
          Server.updateStock (quantity item) (id item)
            (Server.insertItem (item_row transactionId item) db))
       items db) !! productId
  = Some p.
Proof.
  revert db. induction items as [|item items IH]; intros db Hp Hstock; [done|].
  cbn [fold_left]. apply IH; [|done]. simpl.
  destruct (decide (id item = productId)) as [->|Hid].
  - rewrite lookup_alter_eq, Hp. simpl.
    by rewrite bool_decide_eq_false_2 by lia.
  - by rewrite lookup_alter_ne.
Qed.

(** X15. The route leaves a product whose stock is [-1] (or below) exactly
    as it is, whatever the body asks of it: services are never counted
    down. *)
Theorem server_transaction_unlimited (body : Server.Body) (db : Store)
    (productId : Z) (p : Product) :
  products db !! productId = Some p →
  stock p ≤ -1 →
  products (Server.transaction body db).1 !! productId = Some p.
Proof.
  intros Hp Hstock. unfold Server.transaction. simpl.
  by apply (server_loop_frozen (next_id db)).
Qed.

(** X16. [updateStock] does not stop at zero: asked for one unit more than
    a product has, it leaves the stock at [-1], which is the mark of an
    unlimited product. From then on [addToCart] takes the product without
    limit and [updateStock] no longer counts it down. *)
Theorem oversold_by_one_is_unlimited (db : Store) (productId : Z) (p : Product) :
  products db !! productId = Some p →
  0 ≤ stock p →
  let db' := Server.updateStock (stock p + 1) productId db in
  products db' !! productId = Some (with_stock p (-1)) ∧
  Cart.available (with_stock p (-1)) ∧
  ∀ q, products (Server.updateStock q productId db') !! productId
       = Some (with_stock p (-1)).
Proof.
  intros Hp Hstock. cbn zeta.
  assert (products (Server.updateStock (stock p + 1) productId db) !! productId
          = Some (with_stock p (-1))) as Hsold.
  { simpl. rewrite lookup_alter_eq, Hp. simpl.
    rewrite bool_decide_eq_true_2 by lia.
    f_equal. unfold with_stock. f_equal. lia. }
  split; [done|]. split; [by left|].
  intros q. simpl. simpl in Hsold. rewrite lookup_alter_eq, Hsold. done.
Qed.

End ServerFacts.

(** ** The analysis tab *)

Section AnalysisFacts.
Import Analytics.

Lemma bestSeller_numeric (top : list (string * Z)) :
  Catalog.bestSeller (numeric top) = Catalog.bestSeller top.
Proof. by destruct top as [|[n q] top]. Qed.

(** X17. For product names that [Object.prototype] does not define, array
    indices among them or not, the ranking has one entry for each of at
    most ten names, each with the sum of the quantities sold under the
    name, in descending order of the sums; a name that is left out has
    sold no more than any name that is in. *)
Theorem topProducts_totals (items : list TransactionItem.t) :
  Forall (λ r, TransactionItem.product_name r ∉ Js.Object_prototype) items →
  let total n := sum_where TransactionItem.product_name
                   TransactionItem.quantity n items in
  ∃ top : list (string * Z),
    topProducts items = numeric top ∧
    NoDup top.*1 ∧
    (∀ n q, (n, q) ∈ top →
       n ∈ TransactionItem.product_name <$> items ∧ q = total n) ∧
    StronglySorted (λ a b, b.2 ≤ a.2) top ∧
    length top
    = (length (remove_dups (TransactionItem.product_name <$> items)) `min` 10)%nat ∧
    (∀ n, n ∈ TransactionItem.product_name <$> items → n ∉ top.*1 →
       ∀ m q, (m, q) ∈ top → total n ≤ q).
Proof.
  intros Hproto total.
  destruct (ranking_sorted items) as (Htop & Hperm & Hsorted).
  cbn zeta in *.
  exists (ranking items). split; [by apply topProducts_numeric|].
  rewrite Htop. apply (first_ten items _ Hperm Hsorted).
Qed.

(** X18. The best seller shown on the analysis tab is a product name that
    has sold at least as much as every other name (shown as "-" when that
    name is the empty string), as soon as there is one item row and no
    product name is a name of [Object.prototype]. *)
Theorem bestSeller_is_a_maximum (items : list TransactionItem.t) :
  items ≠ [] →
  Forall (λ r, TransactionItem.product_name r ∉ Js.Object_prototype) items →
  let total n := sum_where TransactionItem.product_name
                   TransactionItem.quantity n items in
  ∃ n : string,
    n ∈ TransactionItem.product_name <$> items ∧
    (∀ m, m ∈ TransactionItem.product_name <$> items → total m ≤ total n) ∧
    Catalog.bestSeller (topProducts items) = (if decide (n = "") then "-" else n).
Proof.
  intros Hitems Hproto total.
  rewrite topProducts_numeric by done. rewrite bestSeller_numeric.
  destruct (ranking_sorted items) as (Htop & Hperm & Hsorted).
  cbn zeta in *.
  set (group := Js.group_sum TransactionItem.product_name
                  TransactionItem.quantity items) in *.
  set (sorted := Js.sort (λ a b : string * Z, b.2 - a.2) (Js.entries group)) in *.
  destruct sorted as [|[n q] rest] eqn:Hs.
  { apply Permutation_nil_l in Hperm. symmetry in Hperm.
    destruct items as [|r items]; [done|].
    assert ((TransactionItem.product_name r, total (TransactionItem.product_name r))
            ∈ group) as Hin.
    { apply group_sum_elem. split; [left|done]. }
    rewrite Hperm in Hin. by apply elem_of_nil in Hin. }
  assert ((n, q) ∈ group) as Hhead by (rewrite <- Hperm; left).
  apply group_sum_elem in Hhead as [Hn Hq].
  exists n. split; [done|]. split.
  - intros m Hm.
    assert ((m, total m) ∈ (n, q) :: rest) as Hin
      by (rewrite Hperm; by apply group_sum_elem).
    apply StronglySorted_inv in Hsorted as [_ Hle].
    apply elem_of_cons in Hin as [Heq|Hin].
    + injection Heq as -> ->. done.
    + rewrite Forall_forall in Hle. specialize (Hle _ Hin). simpl in Hle.
      fold (total n) in Hq. lia.
  - rewrite Htop. simpl. by case_bool_decide; case_decide.
Qed.

(** X27. Item rows sold under the name [__proto__] never reach the
    ranking: reading [acc.__proto__] gives [Object.prototype], and writing
    a string to it does nothing, so that the ranking is that of the other
    rows. *)
Theorem proto_rows_are_dropped (items : list TransactionItem.t) :
  topProducts items
  = topProducts
      (List.filter
         (λ r, negb (bool_decide (TransactionItem.product_name r = "__proto__")))
         items) ∧
  "__proto__" ∉ (topProducts items).*1.
Proof.
  assert (∀ acc : list (string * Js.Value),
            fold_left
              (λ acc curr,
                 Js.assign acc (TransactionItem.product_name curr)
                   (Js.plus acc (TransactionItem.product_name curr)
                      (TransactionItem.quantity curr))) items acc
            = fold_left
                (λ acc curr,
                   Js.assign acc (TransactionItem.product_name curr)
                     (Js.plus acc (TransactionItem.product_name curr)
                        (TransactionItem.quantity curr)))
                (List.filter
                   (λ r, negb (bool_decide
                                 (TransactionItem.product_name r = "__proto__")))
                   items) acc) as Hfold.
  { induction items as [|r items IH]; intros acc; [done|].
    cbn [fold_left List.filter].
    destruct (decide (TransactionItem.product_name r = "__proto__")) as [Hp|Hp].
    - rewrite (bool_decide_eq_true_2 _ Hp). cbn [negb].
      rewrite <- IH. f_equal. unfold Js.assign.
      by rewrite (bool_decide_eq_true_2 _ Hp).
    - rewrite (bool_decide_eq_false_2 _ Hp). cbn [negb fold_left].
      apply IH. }
  split.
  - unfold topProducts, Js.group_plus. by rewrite Hfold.
  - clear Hfold.
    assert (∀ acc : list (string * Js.Value),
              "__proto__" ∉ acc.*1 →
              "__proto__" ∉
                (fold_left
                   (λ acc curr,
                      Js.assign acc (TransactionItem.product_name curr)
                        (Js.plus acc (TransactionItem.product_name curr)
                           (TransactionItem.quantity curr))) items acc).*1)
      as Hkeys.
    { induction items as [|r items IH]; intros acc Hacc; [done|].
      cbn [fold_left]. apply IH. unfold Js.assign.
      destruct (decide (TransactionItem.product_name r = "__proto__"))
        as [Hp|Hp].
      { by rewrite (bool_decide_eq_true_2 _ Hp). }
      rewrite (bool_decide_eq_false_2 _ Hp), set_keys.
      case_decide; [done|].
      rewrite not_elem_of_app, list_elem_of_singleton.
      split; [done|congruence]. }
    intros Hin. apply (Hkeys []); [apply not_elem_of_nil|].
    unfold topProducts in Hin.
    eapply elem_of_sublist in Hin; [|apply fmap_sublist, sublist_take].
    by rewrite sort_Permutation, entries_Permutation in Hin.
Qed.

(** X19. As long as no transaction is dated after today, the total shown
    for today is the sum of the totals of today's transactions, however
    many days of sales there are. *)
Theorem todaysTotal_is_todays_sum (today : Z) (sales : list Transaction.t) :
  Forall (λ curr, date curr ≤ today) sales →
  Catalog.todaysTotal today (salesData sales)
  = sum_where date amount today sales.
Proof.
  intros Hpast.
  destruct (salesData_series sales) as (_ & Hsum & Hlen & Hrecent).
  cbn zeta in *. unfold Catalog.todaysTotal.
  destruct (find _ (salesData sales)) as [[d t]|] eqn:Hfind.
  - apply find_some in Hfind as [Hin Hd].
    apply bool_decide_eq_true_1 in Hd. simpl in Hd. subst d.
    apply list_elem_of_In in Hin. by apply Hsum in Hin as [_ ->].
  - destruct (decide (today ∈ date <$> sales)) as [Hin|Hout];
      [|by rewrite sum_where_absent].
    destruct (decide (today ∈ (salesData sales).*1)) as [Hkept|Hcut].
    + apply list_elem_of_fmap in Hkept as ([d t] & Hd & Hkept).
      simpl in Hd. subst d. apply list_elem_of_In in Hkept.
      eapply find_none in Hfind; [|exact Hkept].
      apply bool_decide_eq_false_1 in Hfind. done.
    + destruct (salesData sales) as [|[d t] series] eqn:Hseries.
      * simpl in Hlen.
        assert (today ∈ remove_dups (date <$> sales)) as Hrd
          by by apply elem_of_remove_dups.
        destruct (remove_dups (date <$> sales)); [by apply elem_of_nil in Hrd|].
        simpl in Hlen. lia.
      * assert (today < d) as Hlt by (apply (Hrecent today Hin Hcut d t); left).
        assert (d ∈ date <$> sales) as Hd by (apply (Hsum d t); left).
        apply list_elem_of_fmap in Hd as (curr & -> & Hcurr).
        rewrite Forall_forall in Hpast. specialize (Hpast curr Hcurr). lia.
Qed.

(** X20. With sales on thirty days or fewer, [GET /api/analytics/sales] of
    the earlier server and [fetchAnalytics] give the same series. *)
Theorem sales_routes_agree (db : Store) :
  (length (remove_dups (date <$> transactions db)) ≤ 30)%nat →
  server_sales db = salesData (transactions db).
Proof.
  intros Hdays. unfold server_sales, salesData, Js.slice_last.
  set (sorted := Js.sort _ _).
  assert (length sorted ≤ 30)%nat as Hlen.
  { unfold sorted. by rewrite sort_Permutation, group_sum_length. }
  rewrite take_ge by done.
  replace (length sorted - 30)%nat with 0%nat by lia. done.
Qed.

End AnalysisFacts.

(** ** The catalogue views *)

Section CatalogFacts.
Import Catalog.

Lemma from_set_snoc (xs : list string) (x : string) :
  from_set (xs ++ [x])
  = if decide (x ∈ from_set xs) then from_set xs else from_set xs ++ [x].
Proof.
  unfold from_set. rewrite fold_left_app. simpl.
  case_bool_decide; by case_decide.
Qed.

Lemma from_set_elem (xs : list string) (c : string) :
  c ∈ from_set xs ↔ c ∈ xs.
Proof.
  induction xs as [|x xs IH] using rev_ind; [done|].
  rewrite from_set_snoc, elem_of_app, list_elem_of_singleton.
  case_decide as Hin.
  - rewrite IH. split; [tauto|]. intros [?| ->]; [done|]. by apply IH.
  - rewrite elem_of_app, list_elem_of_singleton, IH. done.
Qed.

Lemma from_set_NoDup (xs : list string) : NoDup (from_set xs).
Proof.
  induction xs as [|x xs IH] using rev_ind; [constructor|].
  rewrite from_set_snoc. case_decide as Hin; [done|].
  apply NoDup_app. split; [done|]. split; [|apply NoDup_singleton].
  intros c Hc Hc'. apply list_elem_of_singleton in Hc'. by subst.
Qed.

(** X21. The category bar starts with "All" and goes on with the
    categories of the products, each once. "All" itself comes twice
    exactly when a product has "All" as its category. *)
Theorem categories_listing (products : list Product) :
  ∃ cats : list string,
    categories products = "All" :: cats ∧
    NoDup cats ∧
    (∀ c, c ∈ cats ↔ c ∈ category <$> products) ∧
    (NoDup (categories products) ↔ "All" ∉ category <$> products).
Proof.
  exists (from_set (map category products)).
  split; [done|]. split; [apply from_set_NoDup|].
  split; [intros c; apply from_set_elem|].
  unfold categories. rewrite NoDup_cons, from_set_elem.
  split; [by intros [? _]|]. intros Hout. split; [done|apply from_set_NoDup].
Qed.

Lemma lower_lower (c : ascii) : lower (lower c) = lower c.
Proof.
  unfold lower. cbv zeta.
  destruct (decide (65 ≤ nat_of_ascii c ≤ 90)%nat) as [Hup|Hno].
  - rewrite (bool_decide_eq_true_2 _ Hup).
    rewrite nat_ascii_embedding by lia.
    by rewrite bool_decide_eq_false_2 by lia.
  - by rewrite !(bool_decide_eq_false_2 _ Hno).
Qed.

Lemma toLowerCase_twice (s : string) :
  toLowerCase (toLowerCase s) = toLowerCase s.
Proof. induction s as [|c s IH]; simpl; [done|]. by rewrite lower_lower, IH. Qed.

Lemma includes_empty (s : string) : includes s "" = true.
Proof. by destruct s. Qed.

Lemma list_filter_sublist {A} (f : A → bool) (l : list A) :
  List.filter f l `sublist_of` l.
Proof.
  induction l as [|x l IH]; simpl; [done|].
  destruct (f x); by constructor.
Qed.

Lemma list_filter_true {A} (f : A → bool) (l : list A) :
  (∀ x, f x = true) → List.filter f l = l.
Proof.
  intros Hf. induction l as [|x l IH]; simpl; [done|]. by rewrite Hf, IH.
Qed.

(** X22. The product grid shows products of the catalogue in the order of
    the catalogue and nothing else; with an empty search under "All" it
    shows them all; under another category it shows products of that
    category only; and the search does not tell upper case from lower
    case in the query. *)
Theorem filteredProducts_view (searchQuery selectedCategory : string)
    (products : list Product) :
  filteredProducts searchQuery selectedCategory products `sublist_of` products ∧
  filteredProducts "" "All" products = products ∧
  (selectedCategory ≠ "All" →
   Forall (λ p, category p = selectedCategory)
          (filteredProducts searchQuery selectedCategory products)) ∧
  filteredProducts (toLowerCase searchQuery) selectedCategory products
  = filteredProducts searchQuery selectedCategory products.
Proof.
  split; [apply list_filter_sublist|]. split; [|split].
  - unfold filteredProducts. apply list_filter_true. intros p.
    change (toLowerCase "") with "". by rewrite includes_empty.
  - intros Hcat. unfold filteredProducts. apply Forall_forall. intros p Hin.
    apply list_elem_of_In, filter_In in Hin as [_ Hp].
    apply andb_true_iff in Hp as [_ Hc].
    rewrite (bool_decide_eq_false_2 _ Hcat) in Hc. simpl in Hc.
    by apply bool_decide_eq_true_1 in Hc.
  - unfold filteredProducts. by rewrite toLowerCase_twice.
Qed.

(** X23. The inventory tab has one group for each category of a product
    other than "All", each once and none of them empty, and a group holds
    the products of its category in the order of the catalogue. A product
    whose category is "All" is in no group. *)
Theorem inventoryGroups_listing (products : list Product) :
  ∃ groups : list (string * list Product),
    inventoryGroups products = Some <$> groups ∧
    NoDup groups.*1 ∧
    ∀ c g, (c, g) ∈ groups ↔
           c ≠ "All" ∧ c ∈ category <$> products ∧
           g = List.filter (λ p, bool_decide (category p = c)) products.
Proof.
  set (cats := List.filter (λ c, bool_decide (c ≠ "All")) (categories products)).
  set (group_of := λ c, (c, List.filter (λ p, bool_decide (category p = c)) products)).
  assert (∀ c, c ∈ cats ↔ c ≠ "All" ∧ c ∈ category <$> products) as Hcats.
  { intros c. unfold cats. rewrite list_elem_of_In, filter_In, <- list_elem_of_In.
    unfold categories. rewrite elem_of_cons, from_set_elem.
    rewrite bool_decide_eq_true. split; [|tauto].
    intros [[Hall|Hin] Hne]; done. }
  exists (group_of <$> cats). split; [|split].
  - unfold inventoryGroups. fold cats. rewrite <- list_fmap_compose.
    apply list_fmap_ext. intros i c Hc. simpl.
    apply list_elem_of_lookup_2, Hcats in Hc as [_ Hc].
    apply list_elem_of_fmap in Hc as (p & -> & Hp).
    rewrite bool_decide_eq_false_2; [done|].
    assert (p ∈ List.filter (λ p0, bool_decide (category p0 = category p)) products)
      as Hin.
    { apply list_elem_of_In, filter_In. split; [by apply list_elem_of_In|].
      by apply bool_decide_eq_true_2. }
    intros Hlen. destruct (List.filter _ products); [|done].
    by apply elem_of_nil in Hin.
  - rewrite <- list_fmap_compose. simpl.
    assert ((fst ∘ group_of) <$> cats = cats) as ->.
    { rewrite <- (list_fmap_id cats) at 2. by apply list_fmap_ext. }
    unfold cats, categories. cbn [List.filter].
    rewrite bool_decide_eq_false_2 by (intros Hne; by apply Hne).
    eapply sublist_NoDup; [apply (from_set_NoDup (map category products))|].
    apply list_filter_sublist.
  - intros c g. rewrite list_elem_of_fmap. split.
    + intros (c' & [= -> ->] & Hc). apply Hcats in Hc. tauto.
    + intros (Hne & Hin & ->). exists c. split; [done|]. by apply Hcats.
Qed.

End CatalogFacts.

(** ** The Supabase client *)

Section SupabaseFacts.
Import Supabase.

Variable Client : Type.
Variable createClient : JsString → JsString → Outcome Client.
Variable new_URL : JsString → option JsString.

Lemma startsWith_nil (s : JsString) : Text.startsWith s [] = true.
Proof. by destruct s. Qed.

Lemma startsWith_app (a b t : JsString) :
  Text.startsWith a t = true → Text.startsWith (a ++ b) t = true.
Proof.
  revert a. induction t as [|c t IH]; intros a.
  - intros _. apply startsWith_nil.
  - destruct a as [|d a]; simpl; [done|].
    intros [Hc Ht]%andb_true_iff. by rewrite Hc, (IH _ Ht).
Qed.

Lemma includes_app_l (a b t : JsString) :
  Text.includes a t = true → Text.includes (a ++ b) t = true.
Proof.
  induction a as [|d a IH]; simpl.
  - rewrite orb_false_r. intros Ht. destruct t; [|done].
    destruct b; simpl; by rewrite ?startsWith_nil.
  - intros [Ht|Ht]%orb_true_iff; apply orb_true_iff.
    + left. by apply (startsWith_app (d :: a)).
    + right. by apply IH.
Qed.

Lemma calls_cached
    (get : Env → option Client → Outcome Client * option Client)
    (envs : list Env) (c : Client) :
  (∀ env c, get env (Some c) = (Returns c, Some c)) →
  calls get envs (Some c) = replicate (length envs) (Returns c).
Proof.
  intros Hcached. induction envs as [|env envs IH]; simpl; [done|].
  by rewrite Hcached, IH.
Qed.

Lemma calls_stable
    (get : Env → option Client → Outcome Client * option Client)
    (envs : list Env) (cache : option Client) (i j : nat) (c : Client) :
  (∀ env c, get env (Some c) = (Returns c, Some c)) →
  (∀ env c, (get env None).1 = Returns c → (get env None).2 = Some c) →
  (i ≤ j < length envs)%nat →
  calls get envs cache !! i = Some (Returns c) →
  calls get envs cache !! j = Some (Returns c).
Proof.
  intros Hcached Hfresh. revert cache i j.
  induction envs as [|env envs IH]; intros cache i j Hij; simpl in *; [lia|].
  destruct (get env cache) as [r cache'] eqn:Hget.
  destruct i as [|i]; simpl.
  - intros [= ->]. destruct j as [|j]; [done|]. simpl.
    assert (cache' = Some c) as ->.
    { destruct cache as [c0|].
      - rewrite Hcached in Hget. by simplify_eq.
      - specialize (Hfresh env c). rewrite Hget in Hfresh. by apply Hfresh. }
    rewrite calls_cached by done. apply lookup_replicate_2. lia.
  - destruct j as [|j]; [lia|]. simpl. apply IH. lia.
Qed.

(** What [getSupabase] ends with on an empty cache: its own error, or
    whatever [createClient] ends with for the two variables. *)
Lemma getSupabase_fresh (env : Env) :
  getSupabase createClient env None = (Throws missing, None) ∨
  ∃ url key,
    VITE_SUPABASE_URL env = Some url ∧ VITE_SUPABASE_ANON_KEY env = Some key ∧
    url ≠ [] ∧ key ≠ [] ∧
    getSupabase createClient env None
    = match createClient url key with
      | Returns client => (Returns client, Some client)
      | Throws message => (Throws message, None)
      end.
Proof.
  unfold getSupabase.
  destruct (VITE_SUPABASE_URL env) as [url|]; [|by left].
  destruct (VITE_SUPABASE_ANON_KEY env) as [key|];
    [|left; cbn [falsy]; by rewrite orb_true_r].
  cbn [falsy default].
  destruct (decide (url = [])) as [->|Hu]; [by left|].
  destruct (decide (key = [])) as [->|Hk];
    [left; by rewrite orb_true_r|].
  rewrite !bool_decide_eq_false_2 by done. cbn [orb].
  right. by exists url, key.
Qed.

Lemma getSupabase_passes (env : Env) (url key : JsString) :
  VITE_SUPABASE_URL env = Some url → VITE_SUPABASE_ANON_KEY env = Some key →
  url ≠ [] → key ≠ [] →
  getSupabase createClient env None
  = match createClient url key with
    | Returns client => (Returns client, Some client)
    | Throws message => (Throws message, None)
    end.
Proof.
  intros Eu Ek Hu Hk. unfold getSupabase. rewrite Eu, Ek. cbn [falsy].
  by rewrite !bool_decide_eq_false_2 by done.
Qed.

(** The same for the variant that trims and checks. *)
Lemma getSupabase_checked_fresh (env : Env) :
  let u := trim (default [] (VITE_SUPABASE_URL env)) in
  let k := trim (default [] (VITE_SUPABASE_ANON_KEY env)) in
  getSupabase_checked createClient new_URL env None = (Throws missing, None) ∨
  (∃ rest, getSupabase_checked createClient new_URL env None
           = (Throws (lit "Invalid VITE_SUPABASE_URL: " ++ rest), None)) ∨
  ((u ≠ [] ∧ u ≠ lit "undefined" ∧ u ≠ lit "null") ∧
   (k ≠ [] ∧ k ≠ lit "undefined" ∧ k ≠ lit "null") ∧
   Text.startsWith (Text.toLowerCase u) (lit "http") = true ∧
   new_URL u = None ∧
   getSupabase_checked createClient new_URL env None
   = match createClient u k with
     | Returns client => (Returns client, Some client)
     | Throws message => (Throws message, None)
     end).
Proof.
  intros u k. unfold getSupabase_checked. cbv zeta. fold u k.
  destruct (bool_decide (u = [])) eqn:Hu1; [by left|].
  destruct (bool_decide (k = [])) eqn:Hk1; [by left|].
  destruct (bool_decide (u = lit "undefined")) eqn:Hu2; [by left|].
  destruct (bool_decide (k = lit "undefined")) eqn:Hk2; [by left|].
  destruct (bool_decide (u = lit "null")) eqn:Hu3; [by left|].
  destruct (bool_decide (k = lit "null")) eqn:Hk3; [by left|].
  apply bool_decide_eq_false in Hu1, Hk1, Hu2, Hk2, Hu3, Hk3.
  cbn [orb]. right.
  destruct (Text.startsWith (Text.toLowerCase u) (lit "http")) eqn:Hhttp;
    cbn [negb]; [|left; by eexists].
  destruct (new_URL u) as [detail|] eqn:Hnew; [left; by eexists|].
  right. done.
Qed.

(** X24. Whenever the checking [getSupabase] gives a client, both
    variables are set, the client is the one [createClient] made of their
    trimmed values, neither trimmed value is empty, "undefined" or "null",
    the URL starts with "http" in whatever case and [new URL] takes it;
    the cache holds the client; and the plain [getSupabase] passes its own
    check for the same environment, ending as [createClient] does on the
    untrimmed values. *)
Theorem getSupabase_checked_client (env : Env) (client : Client)
    (cache : option Client) :
  getSupabase_checked createClient new_URL env None = (Returns client, cache) →
  cache = Some client ∧
  ∃ url key,
    VITE_SUPABASE_URL env = Some url ∧ VITE_SUPABASE_ANON_KEY env = Some key ∧
    createClient (trim url) (trim key) = Returns client ∧
    (trim url ∉ [ []; lit "undefined"; lit "null" ]) ∧
    (trim key ∉ [ []; lit "undefined"; lit "null" ]) ∧
    Text.startsWith (Text.toLowerCase (trim url)) (lit "http") = true ∧
    new_URL (trim url) = None ∧
    (getSupabase createClient env None).1 = createClient url key.
Proof.
  intros Hget.
  destruct (getSupabase_checked_fresh env)
    as [Hm|[[rest Hr]|((Hu1 & Hu2 & Hu3) & (Hk1 & Hk2 & Hk3) & Hhttp & Hnew & Hc)]];
    [congruence|congruence|].
  rewrite Hget in Hc.
  destruct (VITE_SUPABASE_URL env) as [url|] eqn:Eu; [|by destruct Hu1].
  destruct (VITE_SUPABASE_ANON_KEY env) as [key|] eqn:Ek; [|by destruct Hk1].
  cbn [default from_option] in *. unfold Datatypes.id in *.
  destruct (createClient (trim url) (trim key)) as [c|m] eqn:Hcreate;
    [|congruence].
  injection Hc as -> ->. split; [done|].
  exists url, key. repeat (split; [done|]).
  split; [rewrite !elem_of_cons, elem_of_nil; tauto|].
  split; [rewrite !elem_of_cons, elem_of_nil; tauto|].
  repeat (split; [done|]).
  rewrite (getSupabase_passes env url key Eu Ek).
  - by destruct (createClient url key).
  - intros ->. by destruct Hu1.
  - intros ->. by destruct Hk1.
Qed.

(** X25. [getSupabase] makes one client at most: once a call has given a
    client, every later call gives that same client, whatever the
    environment holds by then. This is so for both variants. *)
Theorem getSupabase_makes_one_client (envs : list Env)
    (cache : option Client) (results : list (Outcome Client))
    (i j : nat) (client : Client) :
  results = calls (getSupabase createClient) envs cache
  ∨ results = calls (getSupabase_checked createClient new_URL) envs cache →
  (i ≤ j < length envs)%nat →
  results !! i = Some (Returns client) →
  results !! j = Some (Returns client).
Proof.
  intros [-> | ->] Hij; apply calls_stable; try done.
  - intros env c.
    destruct (getSupabase_fresh env) as [->|(url & key & _ & _ & _ & _ & ->)];
      [done|].
    destruct (createClient url key); simpl; congruence.
  - intros env c.
    destruct (getSupabase_checked_fresh env)
      as [->|[[rest ->]|(_ & _ & _ & _ & ->)]]; [done|done|].
    destruct (createClient _ _); simpl; congruence.
Qed.

(** X26. An error that [getSupabase] throws by itself (missing
    credentials, a URL it refuses) carries a message that [fetchProducts]
    takes for a configuration error: the message is put on the
    configuration screen and written to the console, and the products on
    display stay as they were. An error that [createClient] throws is
    passed on as it is; [fetchProducts] writes it to the console and, when
    it has neither of the two key words, leaves the screen alone. *)
Theorem own_errors_reach_configError (env : Env) (msg : JsString)
    (response : Outcome (option (list Product))) (v : View) :
  ((getSupabase createClient env None).1 = Throws msg
   ∨ (getSupabase_checked createClient new_URL env None).1 = Throws msg →
   (∃ url key, createClient url key = Throws msg) ∨
   @fetchProducts Client (Throws msg) response v
   = ({| products := products v; configError := Some msg |},
      [("Failed to fetch products", msg)])) ∧
  (Text.includes msg (lit "Supabase credentials") = false →
   Text.includes msg (lit "VITE_SUPABASE_URL") = false →
   @fetchProducts Client (Throws msg) response v
   = (v, [("Failed to fetch products", msg)])).
Proof.
  split.
  - intros Hthrown.
    assert ((∃ url key, createClient url key = Throws msg)
            ∨ msg = missing
            ∨ ∃ rest, msg = lit "Invalid VITE_SUPABASE_URL: " ++ rest)
      as [Hlib|Hown].
    { destruct Hthrown as [H|H].
      - destruct (getSupabase_fresh env)
          as [Hm|(url & key & _ & _ & _ & _ & Hc)]; rewrite ?Hm, ?Hc in H.
        + right. left. cbn [fst] in H. congruence.
        + left. exists url, key.
          destruct (createClient url key); cbn [fst] in H; congruence.
      - destruct (getSupabase_checked_fresh env)
          as [Hm|[[rest Hr]|(_ & _ & _ & _ & Hc)]]; rewrite ?Hm, ?Hr, ?Hc in H.
        + right. left. cbn [fst] in H. congruence.
        + right. right. exists rest. cbn [fst] in H. congruence.
        + left. eexists _, _.
          destruct (createClient _ _) eqn:Hcreate; cbn [fst] in H; [congruence|].
          rewrite Hcreate. congruence. }
    { by left. }
    right. unfold fetchProducts.
    assert (Text.includes msg (lit "Supabase credentials") = true
            ∨ Text.includes msg (lit "VITE_SUPABASE_URL") = true) as [-> | Hm].
    { destruct Hown as [-> | [rest ->]].
      - left. vm_compute. reflexivity.
      - right. apply includes_app_l. vm_compute. reflexivity. }
    + done.
    + rewrite Hm. by rewrite orb_true_r.
  - intros H1 H2. unfold fetchProducts. by rewrite H1, H2.
Qed.

End SupabaseFacts.

(** ** The further statements at concrete inputs *)

Section FurtherInstances.
Import Fixture.

Lemma two_lines_NoDup :
  NoDup ((λ item : CartItem, id item) <$> [line ceker 2; line seblak 1]).
Proof. apply (bool_decide_unpack _); vm_compute; exact I. Defined.

Lemma ceker_available : Cart.available ceker.
Proof. right. reflexivity. Defined.

Lemma addToCart_total_witness :
  Cart.cartTotal (Cart.addToCart ceker [line ceker 2; line seblak 1])
  = 14000 + 2000.
Proof.
  exact (addToCart_total ceker [line ceker 2; line seblak 1]
           ceker_available two_lines_NoDup).
Defined.

Lemma removeFromCart_line_witness :
  Cart.removeFromCart 3 [line ceker 2; line seblak 1] = [line seblak 1] ∧
  Cart.cartTotal (Cart.removeFromCart 3 [line ceker 2; line seblak 1])
  = 14000 - 4000.
Proof.
  exact (removeFromCart_line [line ceker 2; line seblak 1] 0 (line ceker 2)
           two_lines_NoDup eq_refl).
Defined.

Lemma updateQuantity_up_then_down_witness :
  Cart.updateQuantity 3 (-1)
    (Cart.updateQuantity 3 1 [line ceker 2; line seblak 1])
  = [line ceker 2; line seblak 1].
Proof.
  apply updateQuantity_up_then_down.
  constructor; [|constructor; [|constructor]].
  - intros _. simpl. split; [lia|right; lia].
  - intros Hid. discriminate Hid.
Defined.

(** The stock of the product has gone from 10 to 7 since the line was
    made. *)
Lemma remove_then_add_witness :
  Cart.addToCart (with_stock ceker 7)
    (Cart.removeFromCart 3 [line ceker 2; line seblak 1])
  = [line seblak 1; line (with_stock ceker 7) 1].
Proof.
  exact (remove_then_add (with_stock ceker 7) [line ceker 2; line seblak 1]
           (or_intror eq_refl)).
Defined.

Lemma handleCheckout_stops_processing_witness :
  isProcessing
    (app (handleCheckout (fail_at 1 "fetch failed")
            (session (form [line ceker 2] "Budi" (Some 5000) "Cash") shop)).2)
  = false.
Proof.
  exact (handleCheckout_stops_processing (fail_at 1 "fetch failed")
           (session (form [line ceker 2] "Budi" (Some 5000) "Cash") shop)
           eq_refl).
Defined.

Lemma shop_referential : referential shop.
Proof. repeat split; constructor. Defined.

Lemma handleCheckout_keeps_referential_witness :
  referential
    (store (handleCheckout (fail_at 1 "fetch failed")
              (session (form [line ceker 2] "Budi" (Some 5000) "Cash") shop)).2).
Proof.
  exact (handleCheckout_keeps_referential (fail_at 1 "fetch failed")
           (session (form [line ceker 2] "Budi" (Some 5000) "Cash") shop)
           shop_referential).
Defined.

(** 1000 against a total of 4000, paid by QRIS. *)
Lemma only_cash_is_checked_witness :
  ∃ row : Transaction.t,
    transactions
      (store (handleCheckout no_faults
                (session (form [line ceker 2] "Budi" (Some 1000) "QRIS") shop)).2)
    = [row] ∧
    Transaction.total_amount row = 4000 ∧
    Transaction.amount_paid row = 1000 ∧
    Transaction.change_amount row = 0.
Proof.
  assert ("QRIS" ≠ "Cash") as Hmethod by discriminate.
  assert ([line ceker 2] ≠ []) as Hcart by discriminate.
  exact (only_cash_is_checked no_faults
           (session (form [line ceker 2] "Budi" (Some 1000) "QRIS") shop) 1000
           Hcart eq_refl Hmethod eq_refl eq_refl).
Defined.

Lemma shown_change_is_recorded_witness :
  ∃ row : Transaction.t,
    transactions
      (store (handleCheckout no_faults
                (session (form [line ceker 2] "Budi" (Some 5000) "Cash") shop)).2)
    = [row] ∧
    Transaction.change_amount row = 1000.
Proof.
  assert (0 ≤ Cart.cartTotal [line ceker 2]) as Htotal
    by (vm_compute; discriminate).
  exact (shown_change_is_recorded no_faults
           (session (form [line ceker 2] "Budi" (Some 5000) "Cash") shop)
           ceker_valid Htotal eq_refl).
Defined.

Lemma select_then_checkout_witness :
  ∃ row : Transaction.t,
    transactions
      (store ((selectPaymentMethod "QRIS";; handleCheckout no_faults)
                (session (form [line ceker 2] "Budi" (Some 1000) "Cash") shop)).2)
    = [row] ∧
    Transaction.payment_method row = "QRIS" ∧
    Transaction.amount_paid row = 4000 ∧
    Transaction.change_amount row = 0.
Proof.
  assert ("QRIS" ≠ "Cash") as Hmethod by discriminate.
  assert ([line ceker 2] ≠ []) as Hcart by discriminate.
  exact (select_then_checkout no_faults
           (session (form [line ceker 2] "Budi" (Some 1000) "Cash") shop) "QRIS"
           Hmethod Hcart eq_refl eq_refl).
Defined.

(** A body that asks for Ceker in two of its items. *)
Lemma ceker_twice_nonneg :
  Forall (λ item : CartItem, 0 ≤ quantity item)
         [line ceker 2; line seblak 1; line ceker 3].
Proof. repeat (constructor; [vm_compute; discriminate|]). constructor. Defined.

Lemma server_transaction_stock_witness :
  products
    (Server.transaction
       {| Server.items := [line ceker 2; line seblak 1; line ceker 3];
          Server.fields := sale 0 20000 |} shop).1 !! 3
  = Some (with_stock ceker 5).
Proof.
  assert (products shop !! 3 = Some ceker) as Hp by (vm_compute; reflexivity).
  assert (asked 3 [line ceker 2; line seblak 1; line ceker 3] ≤ stock ceker)
    as Hasked by (vm_compute; discriminate).
  exact (server_transaction_stock
           {| Server.items := [line ceker 2; line seblak 1; line ceker 3];
              Server.fields := sale 0 20000 |} shop 3 ceker
           Hp ceker_twice_nonneg Hasked).
Defined.

Lemma server_transaction_unlimited_witness :
  products
    (Server.transaction
       {| Server.items := [line ceker 2; line seblak 1; line ceker 3];
          Server.fields := sale 0 20000 |} shop).1 !! 1
  = Some seblak.
Proof.
  assert (products shop !! 1 = Some seblak) as Hp by (vm_compute; reflexivity).
  assert (stock seblak ≤ -1) as Hstock by (vm_compute; discriminate).
  exact (server_transaction_unlimited
           {| Server.items := [line ceker 2; line seblak 1; line ceker 3];
              Server.fields := sale 0 20000 |} shop 1 seblak Hp Hstock).
Defined.

(** Two units of a product that has one left. *)
Lemma oversold_by_one_is_unlimited_witness :
  products (Server.updateStock 2 6 shop) !! 6 = Some (with_stock last_one (-1)).
Proof.
  assert (products shop !! 6 = Some last_one) as Hp by (vm_compute; reflexivity).
  assert (0 ≤ stock last_one) as Hstock by (vm_compute; discriminate).
  exact (proj1 (oversold_by_one_is_unlimited shop 6 last_one Hp Hstock)).
Defined.

(** A product sold under a name that is an array index. *)
Lemma topProducts_totals_witness :
  ∃ top : list (string * Z),
    Analytics.topProducts [sold 1 "Bakso" 5; sold 2 "7" 5; sold 3 "Bakso" 1]
    = numeric top ∧
    length top = 2%nat.
Proof.
  assert (Forall (λ r, TransactionItem.product_name r ∉ Js.Object_prototype)
            [sold 1 "Bakso" 5; sold 2 "7" 5; sold 3 "Bakso" 1]) as Hproto.
  { repeat (constructor; [apply (bool_decide_unpack _); vm_compute; exact I|]).
    constructor. }
  destruct (topProducts_totals _ Hproto) as (top & Heq & _ & _ & _ & Hlen & _).
  exists top. split; [exact Heq|exact Hlen].
Defined.

Lemma bestSeller_is_a_maximum_witness :
  ∃ n : string,
    n ∈ TransactionItem.product_name
          <$> [sold 1 "Ceker" 2; sold 1 "Bakso" 5; sold 2 "Ceker" 1] ∧
    Catalog.bestSeller
      (Analytics.topProducts [sold 1 "Ceker" 2; sold 1 "Bakso" 5; sold 2 "Ceker" 1])
    = (if decide (n = "") then "-" else n).
Proof.
  assert ([sold 1 "Ceker" 2; sold 1 "Bakso" 5; sold 2 "Ceker" 1] ≠ []) as Hitems
    by discriminate.
  assert (Forall (λ r, TransactionItem.product_name r ∉ Js.Object_prototype)
            [sold 1 "Ceker" 2; sold 1 "Bakso" 5; sold 2 "Ceker" 1]) as Hproto.
  { repeat (constructor; [apply (bool_decide_unpack _); vm_compute; exact I|]).
    constructor. }
  destruct (bestSeller_is_a_maximum _ Hitems Hproto) as (n & Hin & _ & Hbest).
  exists n. split; [exact Hin|exact Hbest].
Defined.

(** The amount field holds ".5", which [parseInt] turns into [NaN]. *)
Lemma NaN_amount_is_not_short_witness :
  ∃ row : Transaction.t,
    transactions
      (store (handleCheckout no_faults
                (session (with_amountPaid (Some JsNumber.NaN)
                            (form [line ceker 2] "Budi" None "Cash")) shop)).2)
    = [row] ∧
    Transaction.amount_paid row = JsNumber.NaN ∧
    Transaction.change_amount row = JsNumber.NaN.
Proof.
  assert ([line ceker 2] ≠ []) as Hcart by discriminate.
  destruct (NaN_amount_is_not_short no_faults
              (session (with_amountPaid (Some JsNumber.NaN)
                          (form [line ceker 2] "Budi" None "Cash")) shop)
              Hcart eq_refl eq_refl eq_refl)
    as (row & Ht & _ & Hpaid & Hchange & _).
  exists row. split; [exact Ht|]. split; [exact Hpaid|exact Hchange].
Defined.

Lemma todaysTotal_is_todays_sum_witness :
  Catalog.todaysTotal 1
    (Analytics.salesData [sale 0 1000; sale 1 2000; sale 1 3000])
  = 2000 + (3000 + 0).
Proof.
  assert (Forall (λ curr, Analytics.date curr ≤ 1)
                 [sale 0 1000; sale 1 2000; sale 1 3000]) as Hdates.
  { repeat (constructor; [vm_compute; discriminate|]). constructor. }
  exact (todaysTotal_is_todays_sum 1 [sale 0 1000; sale 1 2000; sale 1 3000]
           Hdates).
Defined.

Lemma sales_routes_agree_witness :
  let db := {| products := ∅;
               transactions := [sale 1 2000; sale 0 1000; sale 1 3000];
               transaction_items := []; next_id := 4; now := 200000000 |} in
  Analytics.server_sales db = Analytics.salesData (transactions db).
Proof.
  intros db. apply sales_routes_agree.
  vm_compute. repeat constructor.
Defined.

(** A URL pasted with a byte order mark before it and a no-break space
    after it; [createClient] takes whatever it is given. *)
Lemma getSupabase_checked_client_witness :
  let createClient := λ url key : JsString, Supabase.Returns (url, key) in
  let env := {| Supabase.VITE_SUPABASE_URL :=
                  Some ([0xFEFF%N] ++ lit "https://kedai.supabase.co"
                        ++ [0xA0%N]);
                Supabase.VITE_SUPABASE_ANON_KEY := Some (lit " anon-key") |} in
  let client := (lit "https://kedai.supabase.co", lit "anon-key") in
  ∃ url key : JsString,
    Supabase.VITE_SUPABASE_URL env = Some url ∧
    Supabase.VITE_SUPABASE_ANON_KEY env = Some key ∧
    createClient (trim url) (trim key) = Supabase.Returns client ∧
    (Supabase.getSupabase createClient env None).1 = createClient url key.
Proof.
  intros createClient env client.
  assert (Supabase.getSupabase_checked createClient (λ _, None) env None
          = (Supabase.Returns client, Some client)) as Hget
    by (vm_compute; reflexivity).
  destruct (getSupabase_checked_client _ createClient (λ _, None) env client
              (Some client) Hget)
    as (_ & url & key & Eu & Ek & Hc & _ & _ & _ & _ & Hplain).
  exists url, key. split; [exact Eu|]. split; [exact Ek|].
  split; [exact Hc|exact Hplain].
Defined.

(** The variables are set between the first call and the second, and
    unset again before the third. *)
Lemma getSupabase_makes_one_client_witness :
  let createClient := λ url key : JsString, Supabase.Returns (url, key) in
  let unset := {| Supabase.VITE_SUPABASE_URL := None;
                  Supabase.VITE_SUPABASE_ANON_KEY := None |} in
  let set := {| Supabase.VITE_SUPABASE_URL :=
                  Some (lit "https://kedai.supabase.co");
                Supabase.VITE_SUPABASE_ANON_KEY := Some (lit "anon-key") |} in
  Supabase.calls (Supabase.getSupabase createClient) [unset; set; unset] None
    !! 2%nat
  = Some (Supabase.Returns (lit "https://kedai.supabase.co", lit "anon-key")).
Proof.
  intros createClient unset set.
  apply (getSupabase_makes_one_client _ createClient (λ _, None)
           [unset; set; unset] None _ 1%nat 2%nat).
  - left. reflexivity.
  - simpl. lia.
  - vm_compute. reflexivity.
Defined.

(** The anon key pasted into the URL variable. *)
Lemma own_errors_reach_configError_witness :
  let createClient := λ url key : JsString, Supabase.Returns (url, key) in
  let env := {| Supabase.VITE_SUPABASE_URL := Some (lit "eyJhbGciOi");
                Supabase.VITE_SUPABASE_ANON_KEY := Some (lit "anon-key") |} in
  let v := {| Supabase.products := [ceker]; Supabase.configError := None |} in
  ∃ msg : JsString,
    (Supabase.getSupabase_checked createClient (λ _, None) env None).1
    = Supabase.Throws msg ∧
    @Supabase.fetchProducts (JsString * JsString) (Supabase.Throws msg)
      (Supabase.Returns None) v
    = ({| Supabase.products := [ceker]; Supabase.configError := Some msg |},
       [("Failed to fetch products", msg)]).
Proof.
  intros createClient env v. eexists. split; [vm_compute; reflexivity|].
  match goal with
  | |- Supabase.fetchProducts (Supabase.Throws ?m) _ _ = _ =>
      destruct (own_errors_reach_configError _ createClient (λ _, None) env m
                  (Supabase.Returns None) v) as [Hown _]
  end.
  destruct Hown as [(url & key & Hlib)|Hbanner].
  - right. vm_compute. reflexivity.
  - discriminate Hlib.
  - exact Hbanner.
Defined.

End FurtherInstances.
